(** * pynalyze: unused functions and imports of one Python file

    A shallow embedding of [pynalyze.py]: the [CodeVisitor] pass over the
    syntax tree produced by [ast.parse], the two resolvers
    [get_unused_imports] and [get_unused_functions], and the [analyze]
    command with its exit status. *)

From stdpp Require Import gmap strings list sorting.
From Stdlib Require Import ZArith Lia Ascii.

Set Warnings "-clear-no-such-hyp".

Local Open Scope Z_scope.
Local Open Scope string_scope.
Local Open Scope list_scope.

(** ** The syntax tree

    The node types of Python's [ast] module that [CodeVisitor] has a
    method for, with their child fields in the order of [_fields] (the
    order in which [generic_visit] walks them).  Every other node type
    ([Module], [Assign], [BinOp], [AsyncFunctionDef], [arguments], ...) is
    an [Other] node: the visitor has no method for it, so only the list of
    its child nodes matters.  [alias] nodes and expression contexts have no
    children and no visitor method; they are kept as data. *)

Inductive expr_context := Load | Store | Del.

Record alias := mk_alias { alias_name : string; asname : option string }.

#[warnings="-register-all"]
Inductive node :=
| Import (names : list alias) (lineno : Z)
| ImportFrom (module : option string) (names : list alias) (lineno : Z)
| Name (id : string) (ctx : expr_context)
| FunctionDef (name : string) (args : node) (body decorator_list : list node)
              (returns : option node) (type_params : list node) (lineno : Z)
| Call (func : node) (args keywords : list node)
| Attribute (value : node) (attr : string) (ctx : expr_context)
| ClassDef (name : string) (bases keywords body decorator_list type_params : list node)
| Other (fields : list node).

(** [ast.Module(body)], the root that [ast.parse] returns. *)
Definition Module_ (body : list node) : node := Other body.

(** ** Records and dictionaries *)

Record ImportInfo := mk_ImportInfo
  { module_of : string; import_lineno : Z; is_from : bool }.

Record FunctionInfo := mk_FunctionInfo
  { func_name : string; func_lineno : Z }.

(** A Python [dict] keeps its keys in order of first insertion; assigning
    to a key that is present replaces the value where it stands. *)
Definition dict (V : Type) := list (string * V).

Fixpoint dict_set {V} (d : dict V) (k : string) (v : V) : dict V :=
  match d with
  | [] => [(k, v)]
  | (k', v') :: r =>
      if String.eqb k' k then (k', v) :: r else (k', v') :: dict_set r k v
  end.

Fixpoint dict_get {V} (d : dict V) (k : string) : option V :=
  match d with
  | [] => None
  | (k', v') :: r => if String.eqb k' k then Some v' else dict_get r k
  end.

Definition keys {V} (d : dict V) : list string := map fst d.

(** ** The visitor state *)

Record CodeVisitor := mk_CodeVisitor
  { defined_funcs : dict FunctionInfo;
    called_funcs : gset string;
    decorated_funcs : gset string;
    imports : dict ImportInfo;
    import_froms : dict ImportInfo;
    used_names : gset string;
    in_class : bool;
    current_class : option string }.

(** [CodeVisitor.__init__] *)
Definition init : CodeVisitor :=
  {| defined_funcs := []; called_funcs := ∅; decorated_funcs := ∅;
     imports := []; import_froms := []; used_names := ∅;
     in_class := false; current_class := None |}.

Definition set_defined_funcs (self : CodeVisitor) d :=
  {| defined_funcs := d; called_funcs := called_funcs self;
     decorated_funcs := decorated_funcs self; imports := imports self;
     import_froms := import_froms self; used_names := used_names self;
     in_class := in_class self; current_class := current_class self |}.

Definition add_called_func (self : CodeVisitor) (x : string) :=
  {| defined_funcs := defined_funcs self;
     called_funcs := {[x]} ∪ called_funcs self;
     decorated_funcs := decorated_funcs self; imports := imports self;
     import_froms := import_froms self; used_names := used_names self;
     in_class := in_class self; current_class := current_class self |}.

Definition add_decorated_func (self : CodeVisitor) (x : string) :=
  {| defined_funcs := defined_funcs self; called_funcs := called_funcs self;
     decorated_funcs := {[x]} ∪ decorated_funcs self; imports := imports self;
     import_froms := import_froms self; used_names := used_names self;
     in_class := in_class self; current_class := current_class self |}.

Definition set_imports (self : CodeVisitor) d :=
  {| defined_funcs := defined_funcs self; called_funcs := called_funcs self;
     decorated_funcs := decorated_funcs self; imports := d;
     import_froms := import_froms self; used_names := used_names self;
     in_class := in_class self; current_class := current_class self |}.

Definition set_import_froms (self : CodeVisitor) d :=
  {| defined_funcs := defined_funcs self; called_funcs := called_funcs self;
     decorated_funcs := decorated_funcs self; imports := imports self;
     import_froms := d; used_names := used_names self;
     in_class := in_class self; current_class := current_class self |}.

Definition add_used_name (self : CodeVisitor) (x : string) :=
  {| defined_funcs := defined_funcs self; called_funcs := called_funcs self;
     decorated_funcs := decorated_funcs self; imports := imports self;
     import_froms := import_froms self; used_names := {[x]} ∪ used_names self;
     in_class := in_class self; current_class := current_class self |}.

Definition set_class_context (self : CodeVisitor) (b : bool) (c : option string) :=
  {| defined_funcs := defined_funcs self; called_funcs := called_funcs self;
     decorated_funcs := decorated_funcs self; imports := imports self;
     import_froms := import_froms self; used_names := used_names self;
     in_class := b; current_class := c |}.

(** ** The visitor methods

    Each method takes, as [generic_visit], the effect of
    [self.generic_visit(node)] on its own node: the visit of the node's
    children, in field order. *)

(** [alias.asname or alias.name]: [None] and the empty string are falsy. *)
Definition bound_name (a : alias) : string :=
  match asname a with
  | Some s => if String.eqb s "" then alias_name a else s
  | None => alias_name a
  end.

Definition visit_Import (names : list alias) (lineno : Z)
    (generic_visit : CodeVisitor -> CodeVisitor) (self : CodeVisitor) : CodeVisitor :=
  let self :=
    fold_left (fun self a =>
      set_imports self
        (dict_set (imports self) (bound_name a)
           {| module_of := alias_name a; import_lineno := lineno; is_from := false |}))
      names self in
  generic_visit self.

(** [node.module or ''] *)
Definition module_or_empty (m : option string) : string :=
  match m with Some s => s | None => "" end.

Definition visit_ImportFrom (module : option string) (names : list alias) (lineno : Z)
    (generic_visit : CodeVisitor -> CodeVisitor) (self : CodeVisitor) : CodeVisitor :=
  let module := module_or_empty module in
  let self :=
    fold_left (fun self a =>
      let name := bound_name a in
      if negb (String.eqb name "*") then
        set_import_froms self
          (dict_set (import_froms self) name
             {| module_of := module; import_lineno := lineno; is_from := true |})
      else self)
      names self in
  generic_visit self.

Definition visit_Name (id : string)
    (generic_visit : CodeVisitor -> CodeVisitor) (self : CodeVisitor) : CodeVisitor :=
  generic_visit (add_used_name self id).

Definition visit_FunctionDef (name : string) (decorator_list : list node) (lineno : Z)
    (generic_visit : CodeVisitor -> CodeVisitor) (self : CodeVisitor) : CodeVisitor :=
  if in_class self then generic_visit self
  else
    match decorator_list with
    | _ :: _ => generic_visit (add_decorated_func self name)
    | [] =>
        generic_visit
          (set_defined_funcs self
             (dict_set (defined_funcs self) name
                {| func_name := name; func_lineno := lineno |}))
    end.

Definition visit_Call (func : node)
    (generic_visit : CodeVisitor -> CodeVisitor) (self : CodeVisitor) : CodeVisitor :=
  let self :=
    match func with
    | Name id _ => add_called_func self id
    | Attribute (Name id _) attr _ =>
        if String.eqb id "self" then add_called_func self attr else self
    | _ => self
    end in
  generic_visit self.

Definition visit_Attribute (value : node) (attr : string)
    (generic_visit : CodeVisitor -> CodeVisitor) (self : CodeVisitor) : CodeVisitor :=
  let self :=
    match value with
    | Name id _ =>
        let self := if String.eqb id "self" then add_called_func self attr else self in
        add_used_name self id
    | _ => self
    end in
  generic_visit self.

Definition visit_ClassDef (name : string)
    (generic_visit : CodeVisitor -> CodeVisitor) (self : CodeVisitor) : CodeVisitor :=
  let old_class := current_class self in
  let old_in_class := in_class self in
  let self := set_class_context self true (Some name) in
  let self := generic_visit self in
  set_class_context self old_in_class old_class.

(** [NodeVisitor.visit]: dispatch on the node type, [generic_visit] for a
    type without a method. *)
Fixpoint visit (n : node) (self : CodeVisitor) {struct n} : CodeVisitor :=
  let visit_list :=
    fix visit_list (l : list node) (self : CodeVisitor) {struct l} : CodeVisitor :=
      match l with
      | [] => self
      | c :: r => visit_list r (visit c self)
      end in
  match n with
  | Import names lineno => visit_Import names lineno (fun self => self) self
  | ImportFrom module names lineno =>
      visit_ImportFrom module names lineno (fun self => self) self
  | Name id _ => visit_Name id (fun self => self) self
  | FunctionDef name args body decorator_list returns type_params lineno =>
      visit_FunctionDef name decorator_list lineno
        (fun self =>
           let self := visit args self in
           let self := visit_list body self in
           let self := visit_list decorator_list self in
           let self := match returns with Some r => visit r self | None => self end in
           visit_list type_params self)
        self
  | Call func args keywords =>
      visit_Call func
        (fun self => visit_list keywords (visit_list args (visit func self))) self
  | Attribute value attr _ =>
      visit_Attribute value attr (fun self => visit value self) self
  | ClassDef name bases keywords body decorator_list type_params =>
      visit_ClassDef name
        (fun self =>
           visit_list type_params
             (visit_list decorator_list
                (visit_list body (visit_list keywords (visit_list bases self)))))
        self
  | Other fields => visit_list fields self
  end.

(** ** The resolvers *)

Definition get_unused_imports (self : CodeVisitor) : dict ImportInfo :=
  let unused : dict ImportInfo := [] in
  let unused :=
    fold_left (fun unused '(name, info) =>
      if bool_decide (name ∉ used_names self) then dict_set unused name info
      else unused) (imports self) unused in
  let unused :=
    fold_left (fun unused '(name, info) =>
      if bool_decide (name ∉ used_names self) then dict_set unused name info
      else unused) (import_froms self) unused in
  unused.

Definition get_unused_functions (self : CodeVisitor) : dict FunctionInfo :=
  fold_left (fun unused '(name, info) =>
    if bool_decide (name ∉ called_funcs self) && bool_decide (name ∉ decorated_funcs self)
    then dict_set unused name info else unused) (defined_funcs self) [].

(** [sorted(unused.items(), key=lambda x: x[1].lineno)]: Python's sort is
    stable: an item goes before the items of greater key only, and among
    items of one key the order of the argument is kept. *)
Section Sorted.
Context {V : Type} (lineno_of : V -> Z).

Fixpoint insert_by_lineno (x : string * V) (l : list (string * V)) : list (string * V) :=
  match l with
  | [] => [x]
  | y :: r =>
      if (lineno_of (snd x) <=? lineno_of (snd y))%Z then x :: y :: r
      else y :: insert_by_lineno x r
  end.

Definition sorted_by_lineno (l : list (string * V)) : list (string * V) :=
  foldr insert_by_lineno [] l.
End Sorted.

(** ** Children and the two halves of a visitor method

    Every method of [CodeVisitor] runs some statements, calls
    [self.generic_visit(node)] once, and (for [visit_ClassDef] only) runs
    more statements after it.  [children] is what [generic_visit] walks,
    [enter] the statements before the descent, [leave] those after it. *)

Definition children (n : node) : list node :=
  match n with
  | Import _ _ | ImportFrom _ _ _ | Name _ _ => []
  | FunctionDef _ args body decorator_list returns type_params _ =>
      args :: body ++ decorator_list ++ option_list returns ++ type_params
  | Call func args keywords => func :: args ++ keywords
  | Attribute value _ _ => [value]
  | ClassDef _ bases keywords body decorator_list type_params =>
      bases ++ keywords ++ body ++ decorator_list ++ type_params
  | Other fields => fields
  end.

Definition enter (n : node) (self : CodeVisitor) : CodeVisitor :=
  match n with
  | Import names lineno => visit_Import names lineno (fun self => self) self
  | ImportFrom module names lineno =>
      visit_ImportFrom module names lineno (fun self => self) self
  | Name id _ => visit_Name id (fun self => self) self
  | FunctionDef name _ _ decorator_list _ _ lineno =>
      visit_FunctionDef name decorator_list lineno (fun self => self) self
  | Call func _ _ => visit_Call func (fun self => self) self
  | Attribute value attr _ => visit_Attribute value attr (fun self => self) self
  | ClassDef name _ _ _ _ _ => set_class_context self true (Some name)
  | Other _ => self
  end.

Definition leave (n : node) (before after : CodeVisitor) : CodeVisitor :=
  match n with
  | ClassDef _ _ _ _ _ _ =>
      set_class_context after (in_class before) (current_class before)
  | _ => after
  end.

Definition visit_all (l : list node) (self : CodeVisitor) : CodeVisitor :=
  fold_left (fun self c => visit c self) l self.

Definition is_ClassDef (n : node) : bool :=
  match n with ClassDef _ _ _ _ _ _ => true | _ => false end.

(** Every node of a tree in the order the visitor reaches it, each with the
    value [in_class] has at that moment ([b] is the value at the root). *)
Fixpoint visited (b : bool) (n : node) {struct n} : list (bool * node) :=
  let visited_list :=
    fix visited_list (b : bool) (l : list node) {struct l} : list (bool * node) :=
      match l with
      | [] => []
      | c :: r => visited b c ++ visited_list b r
      end in
  (b, n) ::
  match n with
  | Import _ _ | ImportFrom _ _ _ | Name _ _ => []
  | FunctionDef _ args body decorator_list returns type_params _ =>
      visited b args ++ visited_list b body ++ visited_list b decorator_list ++
      match returns with Some r => visited b r | None => [] end ++
      visited_list b type_params
  | Call func args keywords =>
      visited b func ++ visited_list b args ++ visited_list b keywords
  | Attribute value _ _ => visited b value
  | ClassDef _ bases keywords body decorator_list type_params =>
      visited_list true bases ++ visited_list true keywords ++
      visited_list true body ++ visited_list true decorator_list ++
      visited_list true type_params
  | Other fields => visited_list b fields
  end.

(** The nodes of a tree, in visiting order. *)
Definition subnodes (n : node) : list node := map snd (visited false n).

(** ** The visitor under a bounded call stack

    [visit] recurses once per level of the tree, and the interpreter allows
    only so many nested calls: one level too many raises [RecursionError]
    out of the innermost call.  An exception leaves the visitor object as
    it is at that moment and skips the rest of every method it passes
    through.  [depth] is the number of nested [visit] calls still
    available. *)

Inductive outcome :=
| Done (self : CodeVisitor)
| Raised (self : CodeVisitor).

Definition walk (visit : node -> CodeVisitor -> outcome) :
    list node -> CodeVisitor -> outcome :=
  fix walk (l : list node) (self : CodeVisitor) : outcome :=
    match l with
    | [] => Done self
    | c :: r =>
        match visit c self with
        | Done self => walk r self
        | Raised self => Raised self
        end
    end.

Fixpoint visit_lim (depth : nat) (n : node) (self : CodeVisitor) : outcome :=
  match depth with
  | O => Raised self
  | S depth =>
      match walk (visit_lim depth) (children n) (enter n self) with
      | Done after => Done (leave n self after)
      | Raised after => Raised after
      end
  end.

(** ** The [analyze] command *)

(** What [open(python_file)] and [ast.parse(file.read())] come to. *)
Inductive source :=
| NotFound                 (* FileNotFoundError *)
| Unparsable               (* SyntaxError, or any other exception *)
| Parsed (tree : node).

Inductive line :=
| FuncBanner (count : nat) (python_file : string)
| FuncQuiet (python_file : string) (lineno : Z) (name : string)
| FuncItem (name : string) (lineno : Z)
| ImportBanner (count : nat) (python_file : string)
| ImportQuiet (python_file : string) (lineno : Z) (name : string)
| ImportItem (name import_str : string) (lineno : Z)
| NoIssues (python_file : string)
| ErrorNotFound (python_file : string)
| ErrorAnalyzing.

Definition reported_functions (visitor : CodeVisitor) : list (string * FunctionInfo) :=
  sorted_by_lineno func_lineno (get_unused_functions visitor).

Definition reported_imports (visitor : CodeVisitor) : list (string * ImportInfo) :=
  sorted_by_lineno import_lineno (get_unused_imports visitor).

Definition import_str (info : ImportInfo) : string :=
  if is_from info then "from " ++ module_of info else module_of info.

Definition is_empty {A} (l : list A) : bool :=
  match l with [] => true | _ => false end.

(** The report of a visitor that finished: the printed lines and
    [has_issues]. *)
Definition report (visitor : CodeVisitor) (python_file : string)
    (quiet no_imports no_functions : bool) : list line * bool :=
  let has_issues := false in
  let '(out, has_issues) :=
    if negb no_functions then
      let unused_funcs := get_unused_functions visitor in
      if negb (is_empty unused_funcs) then
        ((if negb quiet then [FuncBanner (length unused_funcs) python_file] else []) ++
         map (fun '(name, info) =>
                if quiet then FuncQuiet python_file (func_lineno info) name
                else FuncItem name (func_lineno info))
           (reported_functions visitor),
         true)
      else ([], has_issues)
    else ([], has_issues) in
  let '(out, has_issues) :=
    if negb no_imports then
      let unused_imports := get_unused_imports visitor in
      if negb (is_empty unused_imports) then
        (out ++
         (if negb quiet then [ImportBanner (length unused_imports) python_file] else []) ++
         map (fun '(name, info) =>
                if quiet then ImportQuiet python_file (import_lineno info) name
                else ImportItem name (import_str info) (import_lineno info))
           (reported_imports visitor),
         true)
      else (out, has_issues)
    else (out, has_issues) in
  let out :=
    if negb has_issues && negb quiet then out ++ [NoIssues python_file] else out in
  (out, has_issues).

(** Every [print] and [console.print] of [analyze] stands inside its
    [try], and such a call can raise: [console.print] parses the text as
    rich markup, with [python_file] or the error message inside it, and
    raises [MarkupError] on a closing tag that matches nothing.  Whether a
    call returns is decided by the console, outside the repository:
    [prints l] tells whether printing the line [l] returns in this run. *)

(** The prints of the report in turn: the lines printed, and whether all
    of them returned. *)
Fixpoint print_lines (prints : line -> bool) (out : list line) : list line * bool :=
  match out with
  | [] => ([], true)
  | l :: r =>
      if prints l then
        let '(printed, ok) := print_lines prints r in (l :: printed, ok)
      else ([], false)
  end.

(** An [except] clause of [analyze]: print the error line, then
    [raise typer.Exit(1)].  When that print raises, its exception leaves
    the command uncaught and the interpreter exits with status 1 as
    well. *)
Definition except_handler (prints : line -> bool) (error : line)
    (printed : list line) : list line * Z :=
  (printed ++ (if prints error then [error] else []), 1).

(** The report of a finished visitor is printed; an exception of a print
    is caught by [except Exception]. *)
Definition print_report (prints : line -> bool) (out : list line) : list line * Z :=
  match print_lines prints out with
  | (printed, true) => (printed, 0)
  | (printed, false) => except_handler prints ErrorAnalyzing printed
  end.

(** The printed lines and the exit status: 0 when the command returns,
    1 otherwise. *)
Definition analyze (prints : line -> bool) (depth : nat) (src : source)
    (python_file : string) (quiet no_imports no_functions : bool) : list line * Z :=
  match src with
  | NotFound => except_handler prints (ErrorNotFound python_file) []
  | Unparsable => except_handler prints ErrorAnalyzing []
  | Parsed tree =>
      match visit_lim depth tree init with
      | Raised _ => except_handler prints ErrorAnalyzing []
      | Done visitor =>
          print_report prints
            (fst (report visitor python_file quiet no_imports no_functions))
      end
  end.

(** A console on which every print returns. *)
Definition prints_all (l : line) : bool := true.

Definition is_finding (l : line) : bool :=
  match l with
  | FuncQuiet _ _ _ | FuncItem _ _ | ImportQuiet _ _ _ | ImportItem _ _ _ => true
  | _ => false
  end.

Definition findings (out : list line) : list line := List.filter is_finding out.

(** ** Definitions for the statements *)

Definition dict_update {V} (d : dict V) (l : list (string * V)) : dict V :=
  fold_left (fun d kv => dict_set d (fst kv) (snd kv)) l d.

(** The value of the last pair of [l] with key [k]. *)
Definition last_binding {V} (l : list (string * V)) (k : string) : option V :=
  dict_get (rev l) k.

Definition same_context (s s' : CodeVisitor) : Prop :=
  in_class s' = in_class s /\ current_class s' = current_class s.

(** The fold of a step over visited nodes with their class flags. *)
Definition fold_visited {A : Type} (g : bool -> node -> A -> A)
    (l : list (bool * node)) (a : A) : A :=
  fold_left (fun a bn => g (fst bn) (snd bn) a) l a.

(** What one visited node adds to [used_names]. *)
Definition used_step (b : bool) (n : node) (U : gset string) : gset string :=
  match n with
  | Name id _ | Attribute (Name id _) _ _ => {[id]} ∪ U
  | _ => U
  end.

(** *** What a tree declares

    The import bindings and function records of a tree, listed in visiting
    order straight from its nodes. *)

Definition direct_bindings (n : node) : list (string * ImportInfo) :=
  match n with
  | Import names lineno =>
      map (fun a => (bound_name a,
                     {| module_of := alias_name a; import_lineno := lineno;
                        is_from := false |})) names
  | _ => []
  end.

Definition from_bindings (n : node) : list (string * ImportInfo) :=
  match n with
  | ImportFrom module names lineno =>
      map (fun a => (bound_name a,
                     {| module_of := module_or_empty module; import_lineno := lineno;
                        is_from := true |}))
        (List.filter (fun a => negb (String.eqb (bound_name a) "*")) names)
  | _ => []
  end.

Definition function_records (bn : bool * node) : list (string * FunctionInfo) :=
  match bn with
  | (false, FunctionDef name _ _ [] _ _ lineno) =>
      [(name, {| func_name := name; func_lineno := lineno |})]
  | _ => []
  end.

Definition decorated_names (bn : bool * node) : list string :=
  match bn with
  | (false, FunctionDef name _ _ (_ :: _) _ _ _) => [name]
  | _ => []
  end.

Definition direct_imports (t : node) : list (string * ImportInfo) :=
  flat_map direct_bindings (subnodes t).

Definition from_imports (t : node) : list (string * ImportInfo) :=
  flat_map from_bindings (subnodes t).

Definition recorded_functions (b : bool) (t : node) : list (string * FunctionInfo) :=
  flat_map function_records (visited b t).


(** A resolver's loop over a dictionary, and the entries it keeps. *)
Definition select {V : Type} (p : string -> bool) (unused : dict V) (l : dict V) : dict V :=
  fold_left (fun unused '(name, info) =>
               if p name then dict_set unused name info else unused) l unused.

Definition kept {V : Type} (p : string -> bool) (l : dict V) : dict V :=
  List.filter (fun kv => p (fst kv)) l.

Definition unused_name (self : CodeVisitor) (name : string) : bool :=
  bool_decide (name ∉ used_names self).

Definition uncalled_name (self : CodeVisitor) (name : string) : bool :=
  bool_decide (name ∉ called_funcs self) && bool_decide (name ∉ decorated_funcs self).

(** Order by declaration line, and the entries of one line. *)
Definition line_le {V : Type} (lineno_of : V -> Z) (x y : string * V) : Prop :=
  (lineno_of (snd x) <= lineno_of (snd y))%Z.


Definition outcome_state (o : outcome) : CodeVisitor :=
  match o with Done s | Raised s => s end.

Definition has_raised (o : outcome) : bool :=
  match o with Raised _ => true | Done _ => false end.

(** A chain of [k] nested nodes, as the parser builds for a long chain of
    operators. *)
Fixpoint nest (k : nat) : node :=
  match k with
  | O => Other []
  | S k => Other [nest k]
  end.

(** The string contains a dot. *)
Fixpoint dotted (s : string) : bool :=
  match s with
  | EmptyString => false
  | String c r => Ascii.eqb c "."%char || dotted r
  end.

(** What one visited node adds to [called_funcs]. *)
Definition called_step (b : bool) (n : node) (C : gset string) : gset string :=
  match n with
  | Call (Name id _) _ _ => {[id]} ∪ C
  | Call (Attribute (Name id _) attr _) _ _
  | Attribute (Name id _) attr _ => if String.eqb id "self" then {[attr]} ∪ C else C
  | _ => C
  end.

(** *** What a tree contains, by name *)

(** A [def name] without decorator, outside any class. *)
Definition defines_function (t : node) (name : string) : Prop :=
  exists args body returns type_params lineno,
    (false, FunctionDef name args body [] returns type_params lineno) ∈ visited false t.

(** A [def name] with a decorator, outside any class. *)
Definition decorates_function (t : node) (name : string) : Prop :=
  exists args body d decorator_list returns type_params lineno,
    (false, FunctionDef name args body (d :: decorator_list) returns type_params lineno)
      ∈ visited false t.

(** A call [name(...)]. *)
Definition calls_name (t : node) (name : string) : Prop :=
  exists ctx args keywords, Call (Name name ctx) args keywords ∈ subnodes t.

(** An attribute access [self.name], called or not. *)
Definition reads_self_attribute (t : node) (name : string) : Prop :=
  exists ctx ctx', Attribute (Name "self" ctx) name ctx' ∈ subnodes t.

(** A [Name] node with this identifier. *)
Definition names_identifier (t : node) (name : string) : Prop :=
  exists ctx, Name name ctx ∈ subnodes t.

(** [import ... as name] or [import name]. *)
Definition binds_direct (t : node) (name : string) : Prop :=
  exists names lineno a,
    Import names lineno ∈ subnodes t /\ a ∈ names /\ bound_name a = name.

(** [from ... import ... as name] or [from ... import name], not [*]. *)
Definition binds_from (t : node) (name : string) : Prop :=
  exists module names lineno a,
    ImportFrom module names lineno ∈ subnodes t /\ a ∈ names /\
    bound_name a = name /\ name <> "*".

Definition is_error (l : line) : bool :=
  match l with ErrorNotFound _ | ErrorAnalyzing => true | _ => false end.

(** The lines [analyze] prints for a non-empty set of unused functions,
    and for a non-empty set of unused imports. *)
Definition function_lines (visitor : CodeVisitor) (python_file : string)
    (quiet : bool) : list line :=
  (if quiet then [] else [FuncBanner (length (get_unused_functions visitor)) python_file]) ++
  map (fun '(name, info) =>
         if quiet then FuncQuiet python_file (func_lineno info) name
         else FuncItem name (func_lineno info))
    (reported_functions visitor).

Definition import_lines (visitor : CodeVisitor) (python_file : string)
    (quiet : bool) : list line :=
  (if quiet then [] else [ImportBanner (length (get_unused_imports visitor)) python_file]) ++
  map (fun '(name, info) =>
         if quiet then ImportQuiet python_file (import_lineno info) name
         else ImportItem name (import_str info) (import_lineno info))
    (reported_imports visitor).

(** The enabled checks found something. *)
Definition found_functions (visitor : CodeVisitor) (no_functions : bool) : bool :=
  negb no_functions && negb (is_empty (get_unused_functions visitor)).

Definition found_imports (visitor : CodeVisitor) (no_imports : bool) : bool :=
  negb no_imports && negb (is_empty (get_unused_imports visitor)).

(** ** The [__main__] block *)

(** The names of the two commands of the application,
    [get_command_name(key)] for each key of [get_command(app).commands]. *)
Definition command_names : list string := ["analyze"; "doc"].

(** [analyze] is the default command: it is inserted after the program
    name unless the first argument names a command.  [None] is the
    [IndexError] of [sys.argv[1]] on an empty [sys.argv]. *)
Definition default_command (argv : list string) : option (list string) :=
  match argv with
  | [] => None
  | [prog] => Some [prog; "analyze"]
  | prog :: arg :: rest =>
      if bool_decide (arg ∈ command_names) then Some argv
      else Some (prog :: "analyze" :: arg :: rest)
  end.

(** ** Induction on the tree, by children *)

Section NodeInduction.
Variable P : node -> Prop.
Hypothesis step : forall n, Forall P (children n) -> P n.

Let nil_ok : Forall P [] := List.Forall_nil P.

Let cons_ok (c : node) (l : list node) (H : P c) (Hl : Forall P l) :
  Forall P (c :: l) := @List.Forall_cons _ P c l H Hl.

Let app_ok (l1 l2 : list node) (H1 : Forall P l1) (H2 : Forall P l2) :
  Forall P (l1 ++ l2) := proj2 (List.Forall_app P l1 l2) (conj H1 H2).

Fixpoint node_children_ind (n : node) : P n :=
  let all := fix all (l : list node) : Forall P l :=
    match l with
    | [] => nil_ok
    | c :: r => cons_ok c r (node_children_ind c) (all r)
    end in
  step n
    match n return Forall P (children n) with
    | Import _ _ | ImportFrom _ _ _ | Name _ _ => nil_ok
    | FunctionDef _ args body decorator_list returns type_params _ =>
        cons_ok _ _ (node_children_ind args)
          (app_ok _ _ (all body)
             (app_ok _ _ (all decorator_list)
                (app_ok _ _
                   match returns return Forall P (option_list returns) with
                   | Some r => cons_ok _ _ (node_children_ind r) nil_ok
                   | None => nil_ok
                   end (all type_params))))
    | Call func args keywords =>
        cons_ok _ _ (node_children_ind func) (app_ok _ _ (all args) (all keywords))
    | Attribute value _ _ => cons_ok _ _ (node_children_ind value) nil_ok
    | ClassDef _ bases keywords body decorator_list type_params =>
        app_ok _ _ (all bases)
          (app_ok _ _ (all keywords)
             (app_ok _ _ (all body)
                (app_ok _ _ (all decorator_list) (all type_params))))
    | Other fields => all fields
    end.
End NodeInduction.

(** ** Theorems *)

(** Case analysis on membership in an explicit list. *)
Ltac elem_cases H :=
  repeat (apply elem_of_cons in H as [H|H]; [try discriminate H|]);
  try (now apply elem_of_nil in H).

(** The two scenarios of the specification. *)
Example scenario_os :
  let v := visit (Module_ [Import [mk_alias "os" None] 1;
                           FunctionDef "foo" (Other []) [Other [Other []]] [] None [] 2;
                           Other [Call (Name "foo" Load) [] []]]) init in
  get_unused_functions v = [] /\
  get_unused_imports v = [("os", mk_ImportInfo "os" 1 false)].
Proof. vm_compute. split; reflexivity. Qed.

Example scenario_pi :
  analyze prints_all 1000
    (Parsed (Module_ [ImportFrom (Some "math") [mk_alias "pi" None] 1;
                      FunctionDef "bar" (Other []) [Other []] [] None [] 2]))
    "f.py" true false false
  = ([FuncQuiet "f.py" 2 "bar"; ImportQuiet "f.py" 1 "pi"], 0).
Proof. vm_compute. reflexivity. Qed.

(** The scenario of a module-level [helper] that only a method calls, as
    [self.helper()]: the attribute name counts as a call of [helper]. *)
Example scenario_self_helper :
  get_unused_functions
    (visit (Module_ [FunctionDef "helper" (Other []) [Other []] [] None [] 1;
                     ClassDef "K" [] []
                       [FunctionDef "m" (Other [])
                          [Other [Call (Attribute (Name "self" Load) "helper" Load) [] []]]
                          [] None [] 3] [] []]) init)
  = [].
Proof. vm_compute. reflexivity. Qed.

(** *** The visitor as descent between [enter] and [leave] *)

Lemma visit_list_eq (l : list node) (s : CodeVisitor) :
  (fix visit_list (l : list node) (self : CodeVisitor) {struct l} : CodeVisitor :=
     match l with
     | [] => self
     | c :: r => visit_list r (visit c self)
     end) l s = visit_all l s.
Proof. revert s. induction l as [|c r IH]; intros s; [reflexivity | apply IH]. Qed.

Lemma visit_all_app (l1 l2 : list node) (s : CodeVisitor) :
  visit_all (l1 ++ l2) s = visit_all l2 (visit_all l1 s).
Proof. apply fold_left_app. Qed.

Lemma visit_all_cons (c : node) (l : list node) (s : CodeVisitor) :
  visit_all (c :: l) s = visit_all l (visit c s).
Proof. reflexivity. Qed.

Lemma visit_unfold (n : node) (s : CodeVisitor) :
  visit n s = leave n s (visit_all (children n) (enter n s)).
Proof.
  destruct n as [ | | | name args body decos returns tps lineno | | | | ];
    cbn [visit children enter leave]; rewrite ?visit_list_eq;
    rewrite ?visit_all_cons, ?visit_all_app; try reflexivity.
  (* FunctionDef: one of three branches, each descending once *)
  unfold visit_FunctionDef.
  destruct returns; destruct (in_class s); destruct decos; reflexivity.
Qed.

Lemma visited_list_eq (b : bool) (l : list node) :
  (fix visited_list (b : bool) (l : list node) {struct l} : list (bool * node) :=
     match l with
     | [] => []
     | c :: r => visited b c ++ visited_list b r
     end) b l = flat_map (visited b) l.
Proof. induction l as [|c r IH]; [reflexivity | cbn; now rewrite IH]. Qed.

Lemma visited_unfold (b : bool) (n : node) :
  visited b n = (b, n) :: flat_map (visited (b || is_ClassDef n)) (children n).
Proof.
  destruct n as [ | | | name args body decos returns tps lineno | | | | ];
    cbn [visited children is_ClassDef]; rewrite ?visited_list_eq;
    rewrite ?orb_false_r, ?orb_true_r; cbn [flat_map];
    rewrite ?flat_map_app, ?app_nil_r; try reflexivity.
  destruct returns; simpl; rewrite ?app_nil_r; reflexivity.
Qed.

(** *** The class context *)

Lemma fold_left_inv {A B} (f : A -> B -> A) (P : A -> Prop) (l : list B) (a : A) :
  P a -> (forall a b, P a -> P (f a b)) -> P (fold_left f l a).
Proof. revert a. induction l as [|b l IH]; intros a Ha Hf; cbn; auto. Qed.

Lemma enter_context (n : node) (s : CodeVisitor) :
  is_ClassDef n = false -> same_context s (enter n s).
Proof.
  unfold same_context.
  destruct n as [names l | m names l | | name args body decos r tps l
                | func | value | | ]; cbn [enter is_ClassDef]; intros Hc;
    try discriminate; try (split; reflexivity).
  - unfold visit_Import. apply fold_left_inv; [split; reflexivity|].
    intros a b Ha. exact Ha.
  - unfold visit_ImportFrom. apply fold_left_inv; [split; reflexivity|].
    intros a b Ha. destruct (negb _); exact Ha.
  - unfold visit_FunctionDef.
    destruct (in_class s) eqn:E, decos; cbn; rewrite ?E; split; reflexivity.
  - unfold visit_Call.
    destruct func as [ | | | | | [ | | id c | | | | | ] | | ];
      try (split; reflexivity).
    destruct (String.eqb id "self"); split; reflexivity.
  - unfold visit_Attribute. destruct value; try (split; reflexivity).
    destruct (String.eqb _ _); split; reflexivity.
Qed.

Lemma enter_in_class (n : node) (s : CodeVisitor) :
  in_class (enter n s) = in_class s || is_ClassDef n.
Proof.
  destruct (is_ClassDef n) eqn:Hc.
  - destruct n; try discriminate. now rewrite orb_true_r.
  - rewrite orb_false_r. now apply enter_context.
Qed.

Lemma visit_all_context (l : list node) (s : CodeVisitor) :
  Forall (fun c => forall s, same_context s (visit c s)) l ->
  same_context s (visit_all l s).
Proof.
  intros Hl. revert s. induction Hl as [|c r Hc _ IH]; intros s.
  - split; reflexivity.
  - rewrite visit_all_cons. unfold same_context.
    destruct (IH (visit c s)) as [-> ->]. apply Hc.
Qed.

Lemma visit_context (n : node) (s : CodeVisitor) : same_context s (visit n s).
Proof.
  revert s. induction n as [n IH] using node_children_ind. intros s.
  rewrite visit_unfold.
  destruct (is_ClassDef n) eqn:Hc.
  - destruct n; try discriminate. split; reflexivity.
  - assert (leave n s (visit_all (children n) (enter n s))
            = visit_all (children n) (enter n s)) as -> by (destruct n; easy).
    unfold same_context.
    destruct (visit_all_context (children n) (enter n s) IH) as [-> ->].
    now apply enter_context.
Qed.

(** *** A collection after the visit is a fold over the visited nodes *)

Section Field.
Context {A : Type} (f : CodeVisitor -> A) (g : bool -> node -> A -> A).
Hypothesis enter_f : forall n s, f (enter n s) = g (in_class s) n (f s).
Hypothesis context_f : forall s b c, f (set_class_context s b c) = f s.

Lemma visit_all_field (l : list node) :
  Forall (fun c => forall s,
            f (visit c s) = fold_visited g (visited (in_class s) c) (f s)) l ->
  forall s, f (visit_all l s)
            = fold_visited g (flat_map (visited (in_class s)) l) (f s).
Proof.
  induction 1 as [|c r Hc _ IH]; intros s; [reflexivity|].
  rewrite visit_all_cons, IH, Hc. cbn [flat_map]. unfold fold_visited.
  rewrite fold_left_app. now destruct (visit_context c s) as [-> _].
Qed.

Lemma visit_field (n : node) (s : CodeVisitor) :
  f (visit n s) = fold_visited g (visited (in_class s) n) (f s).
Proof.
  revert s. induction n as [n IH] using node_children_ind. intros s.
  rewrite visit_unfold, visited_unfold. cbn [fold_visited fold_left fst snd].
  assert (f (leave n s (visit_all (children n) (enter n s)))
          = f (visit_all (children n) (enter n s))) as ->
    by (destruct n; cbn [leave]; rewrite ?context_f; reflexivity).
  rewrite (visit_all_field _ IH), enter_f, enter_in_class. reflexivity.
Qed.
End Field.

(** *** The visited nodes *)

Lemma visited_root (b : bool) (t : node) : (b, t) ∈ visited b t.
Proof. rewrite visited_unfold. left. Qed.

Lemma visited_child (b0 b : bool) (t n c : node) :
  (b, n) ∈ visited b0 t -> c ∈ children n ->
  (b || is_ClassDef n, c) ∈ visited b0 t.
Proof.
  revert b0. induction t as [t IH] using node_children_ind. intros b0 Hn Hc.
  rewrite visited_unfold in Hn |- *. right. apply list_elem_of_In, in_flat_map.
  apply elem_of_cons in Hn as [Heq | Hn].
  - injection Heq as -> ->. exists c. split; [now apply list_elem_of_In|].
    apply list_elem_of_In, visited_root.
  - apply list_elem_of_In, in_flat_map in Hn as (c' & Hc' & Hn).
    exists c'. split; [exact Hc'|]. apply list_elem_of_In.
    rewrite Forall_forall in IH. apply IH; [now apply list_elem_of_In| |exact Hc].
    now apply list_elem_of_In.
Qed.

Lemma visited_snd (b b' : bool) (t : node) :
  map snd (visited b t) = map snd (visited b' t).
Proof.
  revert b b'. induction t as [t IH] using node_children_ind. intros b b'.
  rewrite !visited_unfold. cbn [map snd]. f_equal.
  generalize (b || is_ClassDef t) (b' || is_ClassDef t). intros c c'.
  induction IH as [|x l Hx _ IHl]; [reflexivity|].
  cbn [flat_map]. rewrite !map_app. f_equal; [apply Hx | apply IHl].
Qed.

Lemma elem_of_subnodes (b : bool) (t n : node) :
  n ∈ subnodes t <-> exists b', (b', n) ∈ visited b t.
Proof.
  unfold subnodes. rewrite (visited_snd false b), list_elem_of_fmap. split.
  - intros ([b' n'] & -> & H). now exists b'.
  - intros (b' & H). now exists (b', n).
Qed.

Lemma subnodes_child (t n c : node) :
  n ∈ subnodes t -> c ∈ children n -> c ∈ subnodes t.
Proof.
  rewrite !(elem_of_subnodes false). intros (b & H) Hc.
  eexists. eapply visited_child; eassumption.
Qed.

(** *** [used_names] *)

Lemma enter_used_names (n : node) (s : CodeVisitor) :
  used_names (enter n s) = used_step (in_class s) n (used_names s).
Proof.
  destruct n as [names l | m names l | | name args body decos r tps l
                | func | value | | ]; cbn [enter used_step]; try reflexivity.
  - unfold visit_Import. now apply fold_left_inv.
  - unfold visit_ImportFrom. apply fold_left_inv; [reflexivity|].
    intros a b Ha. now destruct (negb _).
  - unfold visit_FunctionDef. now destruct (in_class s), decos.
  - unfold visit_Call.
    destruct func as [ | | | | | [ | | id c | | | | | ] | | ]; try reflexivity.
    now destruct (String.eqb id "self").
  - unfold visit_Attribute. destruct value; try reflexivity.
    now destruct (String.eqb _ _).
Qed.

Lemma elem_of_used_step (x : string) (b : bool) (n : node) (U : gset string) :
  x ∈ used_step b n U <-> x ∈ U \/ x ∈ used_step b n ∅.
Proof. destruct n as [ | | | | | [] | | ]; cbn; set_solver. Qed.

Lemma fold_used_step (x : string) (l : list (bool * node)) (U : gset string) :
  x ∈ fold_visited used_step l U <->
  x ∈ U \/ exists b n, (b, n) ∈ l /\ x ∈ used_step b n ∅.
Proof.
  revert U. induction l as [|[b n] l IH]; intros U.
  - split; [now left|]. intros [H | (b & n & H & _)]; [exact H|].
    now apply elem_of_nil in H.
  - change (fold_visited used_step ((b, n) :: l) U)
      with (fold_visited used_step l (used_step b n U)).
    rewrite IH, elem_of_used_step. split.
    + intros [[H | H] | (b' & n' & H & Hx)]; [now left | |].
      * right. exists b, n. split; [left | exact H].
      * right. exists b', n'. split; [now right | exact Hx].
    + intros [H | (b' & n' & H & Hx)]; [now left; left|].
      apply elem_of_cons in H as [Heq | H].
      * injection Heq as -> ->. now left; right.
      * right. exists b', n'. now split.
Qed.

Lemma used_names_visit (x : string) (t : node) (s : CodeVisitor) :
  x ∈ used_names (visit t s) <->
  x ∈ used_names s \/ exists ctx, Name x ctx ∈ subnodes t.
Proof.
  rewrite (visit_field used_names used_step enter_used_names) by reflexivity.
  rewrite fold_used_step. apply or_iff_compat_l. split.
  - intros (b & n & Hn & Hx).
    assert (Hs : n ∈ subnodes t) by (apply (elem_of_subnodes (in_class s)); eauto).
    destruct n as [ | | id c | | | [ | | id c | | | | | ] a c' | | ];
      cbn in Hx; try (now apply not_elem_of_empty in Hx);
      exists c; replace x with id by set_solver.
    + exact Hs.
    + eapply subnodes_child; [exact Hs | left].
  - intros (c & Hs). apply (elem_of_subnodes (in_class s)) in Hs as (b & Hs).
    exists b, (Name x c). split; [exact Hs | cbn; set_solver].
Qed.

(** *** Dictionaries *)

Section Dict.
Context {V : Type}.
Implicit Types (d : dict V) (k : string) (v : V).

Lemma dict_get_set_eq d k v : dict_get (dict_set d k v) k = Some v.
Proof.
  induction d as [|[k' v'] d IH]; cbn.
  - now rewrite String.eqb_refl.
  - destruct (String.eqb k' k) eqn:E; cbn; rewrite E; [reflexivity | exact IH].
Qed.

Lemma dict_get_set_ne d k k' v :
  k <> k' -> dict_get (dict_set d k v) k' = dict_get d k'.
Proof.
  intros Hne. induction d as [|[k0 v0] d IH]; cbn.
  - now apply String.eqb_neq in Hne as ->.
  - destruct (String.eqb k0 k) eqn:E; cbn; [|now rewrite IH].
    apply String.eqb_eq in E as ->. now apply String.eqb_neq in Hne as ->.
Qed.

Lemma dict_get_set d k k' v :
  dict_get (dict_set d k v) k' = if String.eqb k k' then Some v else dict_get d k'.
Proof.
  destruct (String.eqb_spec k k') as [->|Hne];
    [apply dict_get_set_eq | now apply dict_get_set_ne].
Qed.

Lemma dict_get_app (l1 l2 : dict V) k :
  dict_get (l1 ++ l2) k
  = match dict_get l1 k with Some v => Some v | None => dict_get l2 k end.
Proof.
  induction l1 as [|[k' v'] l1 IH]; cbn; [reflexivity|].
  now destruct (String.eqb k' k).
Qed.

Lemma dict_get_keys d k : is_Some (dict_get d k) <-> k ∈ keys d.
Proof.
  induction d as [|[k' v'] d IH]; cbn.
  - split; [intros [? [=]] | intros H; now apply elem_of_nil in H].
  - rewrite elem_of_cons. destruct (String.eqb_spec k' k) as [->|Hne].
    + split; [now left | now eexists].
    + rewrite IH. split; [now right | intros [->|H]; [easy | exact H]].
Qed.

Lemma dict_get_None d k : dict_get d k = None <-> k ∉ keys d.
Proof. rewrite <- dict_get_keys, eq_None_not_Some. reflexivity. Qed.

Lemma dict_get_elem d k v : dict_get d k = Some v -> (k, v) ∈ d.
Proof.
  induction d as [|[k' v'] d IH]; cbn; [easy|].
  destruct (String.eqb_spec k' k) as [->|Hne].
  - intros [= ->]. left.
  - intros H. right. now apply IH.
Qed.

Lemma dict_elem_keys d k v : (k, v) ∈ d -> k ∈ keys d.
Proof. intros H. apply list_elem_of_fmap. now exists (k, v). Qed.

Lemma dict_elem_get d k v : NoDup (keys d) -> (k, v) ∈ d -> dict_get d k = Some v.
Proof.
  induction d as [|[k' v'] d IH]; cbn; intros Hnd H.
  - now apply elem_of_nil in H.
  - apply NoDup_cons in Hnd as [Hk' Hnd].
    apply elem_of_cons in H as [[= -> ->] | H].
    + now rewrite String.eqb_refl.
    + destruct (String.eqb_spec k' k) as [->|Hne]; [|now apply IH].
      exfalso. apply Hk'. eapply dict_elem_keys, H.
Qed.

Lemma keys_dict_set d k v :
  keys (dict_set d k v) = if bool_decide (k ∈ keys d) then keys d else keys d ++ [k].
Proof.
  unfold keys. induction d as [|[k' v'] d IH]; cbn; [reflexivity|].
  destruct (String.eqb_spec k' k) as [->|Hne]; cbn.
  - rewrite bool_decide_eq_true_2; [reflexivity | left].
  - rewrite IH. destruct (bool_decide (k ∈ map fst d)) eqn:E.
    + apply bool_decide_eq_true_1 in E.
      rewrite bool_decide_eq_true_2; [reflexivity | now right].
    + apply bool_decide_eq_false_1 in E.
      rewrite bool_decide_eq_false_2; [reflexivity|].
      intros [->|H]%elem_of_cons; [now apply Hne | now apply E].
Qed.

Lemma NoDup_dict_set d k v : NoDup (keys d) -> NoDup (keys (dict_set d k v)).
Proof.
  intros Hnd. rewrite keys_dict_set. case_bool_decide as Hk; [exact Hnd|].
  apply NoDup_app. split; [exact Hnd|]. split; [|apply NoDup_singleton].
  intros x Hx ->%list_elem_of_singleton. now apply Hk.
Qed.

Lemma NoDup_dict_update d (l : list (string * V)) :
  NoDup (keys d) -> NoDup (keys (dict_update d l)).
Proof.
  revert d. induction l as [|[k v] l IH]; intros d Hnd; [exact Hnd|].
  apply IH, NoDup_dict_set, Hnd.
Qed.

Lemma dict_get_update d (l : list (string * V)) k :
  dict_get (dict_update d l) k
  = match last_binding l k with Some v => Some v | None => dict_get d k end.
Proof.
  unfold last_binding. revert d. induction l as [|[k' v'] l IH]; intros d; [reflexivity|].
  change (dict_update d ((k', v') :: l)) with (dict_update (dict_set d k' v') l).
  rewrite IH. cbn [rev]. rewrite dict_get_app.
  destruct (dict_get (rev l) k); [reflexivity|].
  rewrite dict_get_set. cbn. now destruct (String.eqb k' k).
Qed.

Lemma last_binding_elem (l : list (string * V)) k v :
  last_binding l k = Some v -> (k, v) ∈ l.
Proof.
  intros H%dict_get_elem. apply list_elem_of_In, in_rev.
  now apply list_elem_of_In.
Qed.

Lemma last_binding_keys (l : list (string * V)) k :
  is_Some (last_binding l k) <-> k ∈ keys l.
Proof.
  unfold last_binding. rewrite dict_get_keys. unfold keys.
  rewrite map_rev, !list_elem_of_In. symmetry. apply in_rev.
Qed.

Lemma keys_dict_update d (l : list (string * V)) k :
  k ∈ keys (dict_update d l) <-> k ∈ keys d \/ k ∈ keys l.
Proof.
  rewrite <- (last_binding_keys l k), <- !dict_get_keys, dict_get_update.
  destruct (last_binding l k); [|split; [now left | intros [H|[? [=]]]; exact H]].
  split; [now right | now eexists].
Qed.
End Dict.

Lemma dict_update_app {V} (d : dict V) (l1 l2 : list (string * V)) :
  dict_update d (l1 ++ l2) = dict_update (dict_update d l1) l2.
Proof. apply fold_left_app. Qed.

Lemma fold_visited_update {V} (h : bool * node -> list (string * V))
    (l : list (bool * node)) (d : dict V) :
  fold_visited (fun b n d => dict_update d (h (b, n))) l d
  = dict_update d (flat_map h l).
Proof.
  revert d. induction l as [|[b n] l IH]; intros d; [reflexivity|].
  cbn [flat_map]. rewrite dict_update_app, <- IH. reflexivity.
Qed.

Lemma flat_map_snd {B} (h : node -> list B) (l : list (bool * node)) :
  flat_map (fun bn => h (snd bn)) l = flat_map h (map snd l).
Proof. induction l as [|x l IH]; [reflexivity | cbn; now rewrite IH]. Qed.

Lemma enter_imports (n : node) (s : CodeVisitor) :
  imports (enter n s) = dict_update (imports s) (direct_bindings n).
Proof.
  destruct n as [names l | m names l | | name args body decos r tps l
                | func | value | | ]; cbn [enter direct_bindings]; try reflexivity.
  - unfold visit_Import. revert s.
    induction names as [|a names IH]; intros s; [reflexivity | apply IH].
  - unfold visit_ImportFrom. now apply fold_left_inv; [|intros a b; destruct (negb _)].
  - unfold visit_FunctionDef. now destruct (in_class s), decos.
  - unfold visit_Call.
    destruct func as [ | | | | | [ | | id c | | | | | ] | | ]; try reflexivity.
    now destruct (String.eqb id "self").
  - unfold visit_Attribute. destruct value; try reflexivity.
    now destruct (String.eqb _ _).
Qed.

Lemma enter_import_froms (n : node) (s : CodeVisitor) :
  import_froms (enter n s) = dict_update (import_froms s) (from_bindings n).
Proof.
  destruct n as [names l | m names l | | name args body decos r tps l
                | func | value | | ]; cbn [enter from_bindings]; try reflexivity.
  - unfold visit_Import. now apply fold_left_inv.
  - unfold visit_ImportFrom. revert s.
    induction names as [|a names IH]; intros s; [reflexivity|].
    cbn [fold_left List.filter]. destruct (negb _); [apply IH | apply IH].
  - unfold visit_FunctionDef. now destruct (in_class s), decos.
  - unfold visit_Call.
    destruct func as [ | | | | | [ | | id c | | | | | ] | | ]; try reflexivity.
    now destruct (String.eqb id "self").
  - unfold visit_Attribute. destruct value; try reflexivity.
    now destruct (String.eqb _ _).
Qed.

Lemma enter_defined_funcs (n : node) (s : CodeVisitor) :
  defined_funcs (enter n s)
  = dict_update (defined_funcs s) (function_records (in_class s, n)).
Proof.
  destruct n as [names l | m names l | | name args body decos r tps l
                | func | value | | ]; cbn [enter function_records];
    try (now destruct (in_class s)).
  - unfold visit_Import. destruct (in_class s); now apply fold_left_inv.
  - unfold visit_ImportFrom.
    destruct (in_class s); now apply fold_left_inv; [|intros a b; destruct (negb _)].
  - unfold visit_FunctionDef. now destruct (in_class s), decos.
  - unfold visit_Call. destruct (in_class s);
    destruct func as [ | | | | | [ | | id c | | | | | ] | | ]; try reflexivity;
    now destruct (String.eqb id "self").
  - unfold visit_Attribute. destruct (in_class s); destruct value; try reflexivity;
    now destruct (String.eqb _ _).
Qed.

Lemma imports_visit (t : node) (s : CodeVisitor) :
  imports (visit t s) = dict_update (imports s) (direct_imports t).
Proof.
  rewrite (visit_field imports (fun _ n d => dict_update d (direct_bindings n))
             enter_imports) by reflexivity.
  rewrite (fold_visited_update (fun bn => direct_bindings (snd bn))), flat_map_snd.
  unfold direct_imports, subnodes. now rewrite (visited_snd _ false).
Qed.

Lemma import_froms_visit (t : node) (s : CodeVisitor) :
  import_froms (visit t s) = dict_update (import_froms s) (from_imports t).
Proof.
  rewrite (visit_field import_froms (fun _ n d => dict_update d (from_bindings n))
             enter_import_froms) by reflexivity.
  rewrite (fold_visited_update (fun bn => from_bindings (snd bn))), flat_map_snd.
  unfold from_imports, subnodes. now rewrite (visited_snd _ false).
Qed.

Lemma defined_funcs_visit (t : node) (s : CodeVisitor) :
  defined_funcs (visit t s)
  = dict_update (defined_funcs s) (recorded_functions (in_class s) t).
Proof.
  rewrite (visit_field defined_funcs
             (fun b n d => dict_update d (function_records (b, n)))
             enter_defined_funcs) by reflexivity.
  apply fold_visited_update.
Qed.

(** *** [decorated_funcs] *)

Lemma enter_decorated_funcs (n : node) (s : CodeVisitor) :
  decorated_funcs (enter n s)
  = list_to_set (decorated_names (in_class s, n)) ∪ decorated_funcs s.
Proof.
  destruct n as [names l | m names l | | name args body decos r tps l
                | func | value | | ]; cbn [enter decorated_names].
  - unfold visit_Import. destruct (in_class s);
      apply fold_left_inv; try (intros a b Ha; exact Ha); set_solver.
  - unfold visit_ImportFrom. destruct (in_class s);
      apply fold_left_inv; try (intros a b Ha; destruct (negb _); exact Ha); set_solver.
  - destruct (in_class s); cbn; set_solver.
  - unfold visit_FunctionDef. destruct (in_class s), decos; cbn; set_solver.
  - unfold visit_Call. destruct (in_class s);
    destruct func as [ | | | | | [ | | id c | | | | | ] | | ];
      try destruct (String.eqb id "self"); cbn; set_solver.
  - unfold visit_Attribute. destruct (in_class s); destruct value;
      try destruct (String.eqb _ _); cbn; set_solver.
  - destruct (in_class s); cbn; set_solver.
  - destruct (in_class s); cbn; set_solver.
Qed.

Lemma fold_decorated (x : string) (l : list (bool * node)) (D : gset string) :
  x ∈ fold_visited (fun b n D => list_to_set (decorated_names (b, n)) ∪ D) l D <->
  x ∈ D \/ x ∈ flat_map decorated_names l.
Proof.
  revert D. induction l as [|bn l IH]; intros D.
  - cbn. rewrite elem_of_nil. tauto.
  - destruct bn as [b n]. cbn [fold_visited fold_left flat_map fst snd].
    unfold fold_visited in IH. rewrite IH, elem_of_union, elem_of_list_to_set, elem_of_app.
    tauto.
Qed.

Lemma decorated_funcs_visit (x : string) (t : node) (s : CodeVisitor) :
  x ∈ decorated_funcs (visit t s) <->
  x ∈ decorated_funcs s \/ x ∈ flat_map decorated_names (visited (in_class s) t).
Proof.
  rewrite (visit_field decorated_funcs
             (fun b n D => list_to_set (decorated_names (b, n)) ∪ D)
             enter_decorated_funcs) by reflexivity.
  apply fold_decorated.
Qed.

(** *** The resolvers *)

Section Select.
Context {V : Type} (p : string -> bool).

Lemma select_update (unused l : dict V) :
  select p unused l = dict_update unused (kept p l).
Proof.
  revert unused. induction l as [|[k v] l IH]; intros unused; [reflexivity|].
  cbn [select fold_left kept List.filter fst]. destruct (p k); apply IH.
Qed.

Lemma dict_set_fresh (d : dict V) k v : k ∉ keys d -> dict_set d k v = d ++ [(k, v)].
Proof.
  induction d as [|[k' v'] d IH]; cbn; intros Hk; [reflexivity|].
  apply not_elem_of_cons in Hk as [Hne Hk].
  destruct (String.eqb_spec k' k) as [->|_]; [easy | now rewrite IH].
Qed.

Lemma dict_update_fresh (d l : dict V) :
  NoDup (keys d ++ keys l) -> dict_update d l = d ++ l.
Proof.
  revert d. induction l as [|[k v] l IH]; intros d Hnd.
  - now rewrite app_nil_r.
  - change (dict_update d ((k, v) :: l)) with (dict_update (dict_set d k v) l).
    assert (Hk : k ∉ keys d).
    { apply NoDup_app in Hnd as (_ & H & _). intros Hk. apply (H k Hk). left. }
    rewrite dict_set_fresh by exact Hk. rewrite IH.
    + now rewrite <- app_assoc.
    + unfold keys in *. rewrite map_app, <- app_assoc. exact Hnd.
Qed.

Lemma keys_kept_sublist (l : dict V) : sublist (keys (kept p l)) (keys l).
Proof.
  induction l as [|[k v] l IH]; cbn; [constructor|].
  destruct (p k); cbn; now constructor.
Qed.

Lemma select_NoDup (l : dict V) : NoDup (keys l) -> select p [] l = kept p l.
Proof.
  intros Hnd. rewrite select_update, dict_update_fresh; [reflexivity|].
  cbn. eapply sublist_NoDup; [exact Hnd | apply keys_kept_sublist].
Qed.

Lemma last_binding_app (l1 l2 : dict V) k :
  last_binding (l1 ++ l2) k
  = match last_binding l2 k with Some v => Some v | None => last_binding l1 k end.
Proof. unfold last_binding. rewrite rev_app_distr. apply dict_get_app. Qed.

Lemma dict_get_kept (l : dict V) k :
  dict_get (kept p l) k = if p k then dict_get l k else None.
Proof.
  unfold kept. induction l as [|[k' v'] l IH]; cbn; [now destruct (p k)|].
  destruct (String.eqb_spec k' k) as [->|Hne].
  - destruct (p k) eqn:E; cbn; [now rewrite String.eqb_refl | now rewrite IH].
  - destruct (p k'); cbn; [|exact IH].
    now apply String.eqb_neq in Hne as ->.
Qed.

Lemma last_binding_kept (l : dict V) k :
  last_binding (kept p l) k = if p k then last_binding l k else None.
Proof.
  unfold last_binding, kept. rewrite <- filter_rev. apply dict_get_kept.
Qed.

Lemma last_binding_NoDup (l : dict V) k :
  NoDup (keys l) -> last_binding l k = dict_get l k.
Proof.
  intros Hnd. destruct (last_binding l k) as [v|] eqn:E.
  - symmetry. apply dict_elem_get; [exact Hnd|]. now apply last_binding_elem.
  - symmetry. apply dict_get_None. rewrite <- last_binding_keys, E.
    now intros [? [=]].
Qed.
End Select.

Lemma get_unused_imports_update (s : CodeVisitor) :
  get_unused_imports s
  = dict_update [] (kept (unused_name s) (imports s)
                    ++ kept (unused_name s) (import_froms s)).
Proof.
  rewrite dict_update_app, <- !select_update. reflexivity.
Qed.

Lemma get_unused_functions_kept (s : CodeVisitor) :
  NoDup (keys (defined_funcs s)) ->
  get_unused_functions s = kept (uncalled_name s) (defined_funcs s).
Proof. intros Hnd. rewrite <- select_NoDup by exact Hnd. reflexivity. Qed.

Lemma get_unused_imports_NoDup (s : CodeVisitor) :
  NoDup (keys (get_unused_imports s)).
Proof. rewrite get_unused_imports_update. apply NoDup_dict_update. constructor. Qed.

Lemma get_unused_imports_get (s : CodeVisitor) (k : string) :
  NoDup (keys (imports s)) -> NoDup (keys (import_froms s)) ->
  dict_get (get_unused_imports s) k
  = if bool_decide (k ∈ used_names s) then None
    else match dict_get (import_froms s) k with
         | Some info => Some info
         | None => dict_get (imports s) k
         end.
Proof.
  intros Hi Hf.
  rewrite get_unused_imports_update, dict_get_update, last_binding_app,
    !last_binding_kept, !last_binding_NoDup by assumption.
  unfold unused_name. repeat case_bool_decide; try contradiction; try reflexivity.
  now destruct (dict_get (import_froms s) k), (dict_get (imports s) k).
Qed.

(** *** [sorted] *)

Section SortedFacts.
Context {V : Type} (lineno_of : V -> Z).
Implicit Types (x y : string * V) (l : list (string * V)).

Lemma insert_by_lineno_perm x l : Permutation (insert_by_lineno lineno_of x l) (x :: l).
Proof.
  induction l as [|y l IH]; cbn; [reflexivity|].
  destruct (_ <=? _)%Z; [reflexivity|]. rewrite IH. apply perm_swap.
Qed.

Lemma sorted_by_lineno_perm l : Permutation (sorted_by_lineno lineno_of l) l.
Proof.
  induction l as [|x l IH]; cbn; [reflexivity|].
  rewrite insert_by_lineno_perm. now constructor.
Qed.

Lemma insert_by_lineno_sorted x l :
  StronglySorted (line_le lineno_of) l -> StronglySorted (line_le lineno_of) (insert_by_lineno lineno_of x l).
Proof.
  induction 1 as [|y l Hl IH Hy]; cbn; [repeat constructor|].
  destruct (Z.leb_spec (lineno_of (snd x)) (lineno_of (snd y))) as [Hle|Hlt].
  - constructor; [now constructor|]. constructor; [exact Hle|].
    eapply Forall_impl; [exact Hy|]. unfold line_le. intros z Hz. lia.
  - constructor; [exact IH|]. rewrite insert_by_lineno_perm.
    constructor; [unfold line_le; lia | exact Hy].
Qed.

Lemma sorted_by_lineno_sorted l :
  StronglySorted (line_le lineno_of) (sorted_by_lineno lineno_of l).
Proof.
  induction l as [|x l IH]; cbn; [constructor | now apply insert_by_lineno_sorted].
Qed.


End SortedFacts.

(** *** The bounded stack *)

Lemma walk_done (f : node -> CodeVisitor -> outcome) (l : list node) (s s' : CodeVisitor) :
  Forall (fun c => forall s s', f c s = Done s' -> s' = visit c s) l ->
  walk f l s = Done s' -> s' = visit_all l s.
Proof.
  intros Hl. revert s. induction Hl as [|c r Hc _ IH]; intros s; cbn.
  - now intros [= <-].
  - destruct (f c s) as [s1|s1] eqn:E; [|discriminate].
    intros H. apply Hc in E as ->. now apply IH.
Qed.

Lemma visit_lim_done (depth : nat) (n : node) (s s' : CodeVisitor) :
  visit_lim depth n s = Done s' -> s' = visit n s.
Proof.
  revert n s s'. induction depth as [|depth IH]; intros n s s'; cbn; [discriminate|].
  destruct (walk _ _ _) as [s1|s1] eqn:E; [|discriminate].
  intros [= <-]. rewrite visit_unfold. f_equal.
  eapply walk_done; [|exact E]. apply Forall_forall. intros c _. apply IH.
Qed.

Lemma walk_enough (f : node -> CodeVisitor -> outcome) (l : list node) (s : CodeVisitor) :
  Forall (fun c => forall s, f c s = Done (visit c s)) l ->
  walk f l s = Done (visit_all l s).
Proof.
  intros Hl. revert s. induction Hl as [|c r Hc _ IH]; intros s; cbn; [reflexivity|].
  rewrite Hc. apply IH.
Qed.

(** A stack deep enough for the tree lets the visit finish. *)
Lemma visit_lim_enough (n : node) :
  exists d0, forall depth s, (d0 <= depth)%nat -> visit_lim depth n s = Done (visit n s).
Proof.
  induction n as [n IH] using node_children_ind.
  assert (exists d1, Forall (fun c => forall depth s, (d1 <= depth)%nat ->
                                  visit_lim depth c s = Done (visit c s)) (children n))
    as [d1 H1].
  { induction IH as [|c r [dc Hc] _ [dr Hr]]; [exists O; constructor|].
    exists (Nat.max dc dr). constructor.
    - intros depth s Hd. apply Hc. lia.
    - eapply Forall_impl; [exact Hr|]. cbn. intros c' H depth s Hd. apply H. lia. }
  exists (S d1). intros [|depth] s Hd; [lia|]. cbn.
  rewrite (walk_enough (visit_lim depth)), visit_unfold; [reflexivity|].
  eapply Forall_impl; [exact H1|]. cbn. intros c H s'. apply H. lia.
Qed.

(** Whatever the bound, some class body is too deep for it, and the
    exception finds the visitor inside that class. *)
Lemma visit_lim_nest_raises (d : nat) (s : CodeVisitor) :
  visit_lim d (nest d) s = Raised s.
Proof.
  revert s. induction d as [|d IH]; intros s; [reflexivity|].
  cbn [visit_lim nest children enter walk]. now rewrite IH.
Qed.

Lemma class_descent_raises (d : nat) (name : string) (s : CodeVisitor) :
  visit_lim (S d) (ClassDef name [] [] [nest d] [] []) s
  = Raised (set_class_context s true (Some name)).
Proof.
  cbn [visit_lim children enter walk app]. now rewrite visit_lim_nest_raises.
Qed.

(** *** Keys of the resolvers' results *)

Lemma keys_kept {V} (p : string -> bool) (l : dict V) (k : string) :
  k ∈ keys (kept p l) <-> p k = true /\ k ∈ keys l.
Proof.
  rewrite <- !dict_get_keys, dict_get_kept. destruct (p k).
  - split; [now split | now intros [_ H]].
  - split; [intros [? [=]] | now intros [[=] _]].
Qed.

Lemma keys_get_unused_imports (s : CodeVisitor) (k : string) :
  k ∈ keys (get_unused_imports s) <->
  (k ∈ keys (imports s) \/ k ∈ keys (import_froms s)) /\ k ∉ used_names s.
Proof.
  rewrite get_unused_imports_update, keys_dict_update. unfold keys at 2.
  rewrite map_app, elem_of_app. fold (keys (kept (unused_name s) (imports s))).
  fold (keys (kept (unused_name s) (import_froms s))). rewrite !keys_kept.
  unfold unused_name. rewrite bool_decide_eq_true. cbn. rewrite elem_of_nil. tauto.
Qed.

Lemma keys_get_unused_functions (s : CodeVisitor) (k : string) :
  k ∈ keys (get_unused_functions s) <->
  k ∈ keys (defined_funcs s) /\ (k ∉ called_funcs s) /\ (k ∉ decorated_funcs s).
Proof.
  change (get_unused_functions s) with (select (uncalled_name s) [] (defined_funcs s)).
  rewrite select_update, keys_dict_update, keys_kept. unfold uncalled_name.
  rewrite andb_true_iff, !bool_decide_eq_true. cbn. rewrite elem_of_nil. tauto.
Qed.

Lemma keys_sorted_by_lineno {V} (lineno_of : V -> Z) (l : dict V) (k : string) :
  k ∈ keys (sorted_by_lineno lineno_of l) <-> k ∈ keys l.
Proof.
  unfold keys. now rewrite (Permutation_map fst (sorted_by_lineno_perm lineno_of l)).
Qed.

(** *** Nodes inside a class *)

Lemma visited_true (t : node) (b : bool) (n : node) :
  (b, n) ∈ visited true t -> b = true.
Proof.
  induction t as [t IH] using node_children_ind.
  rewrite visited_unfold. intros [[= -> _] | H]%elem_of_cons; [reflexivity|].
  apply list_elem_of_In, in_flat_map in H as (c & Hc & H).
  rewrite Forall_forall in IH. apply (IH c); [now apply list_elem_of_In|].
  now apply list_elem_of_In.
Qed.

Lemma recorded_functions_in_class (t : node) : recorded_functions true t = [].
Proof.
  unfold recorded_functions.
  assert (H : forall bn, bn ∈ visited true t -> function_records bn = []).
  { intros [b n] ->%visited_true. reflexivity. }
  induction (visited true t) as [|bn l IH]; [reflexivity|].
  cbn. rewrite H by left. apply IH. intros bn' Hbn. apply H. now right.
Qed.

Lemma defined_funcs_in_class (n : node) (s : CodeVisitor) :
  in_class s = true -> defined_funcs (visit n s) = defined_funcs s.
Proof.
  intros Hc. now rewrite defined_funcs_visit, Hc, recorded_functions_in_class.
Qed.

Lemma elem_of_recorded_functions (b : bool) (t : node) (name : string) (info : FunctionInfo) :
  (name, info) ∈ recorded_functions b t <->
  func_name info = name /\
  exists args body returns type_params,
    (false, FunctionDef name args body [] returns type_params (func_lineno info))
      ∈ visited b t.
Proof.
  unfold recorded_functions. rewrite list_elem_of_In, in_flat_map. split.
  - intros ([b' n] & Hn & H). apply list_elem_of_In in Hn.
    destruct b'; [now cbn in H|].
    destruct n as [ | | | name' args body [|] r tps l | | | | ]; try now cbn in H.
    cbn in H. destruct H as [[= -> <-] | []]. split; [reflexivity|].
    now exists args, body, r, tps.
  - intros (Hname & args & body & r & tps & H). eexists. split.
    + apply list_elem_of_In, H.
    + cbn. left. destruct info as [nm ln]. cbn in *. now subst.
Qed.

Lemma keys_recorded_functions (b : bool) (t : node) (name : string) :
  name ∈ keys (recorded_functions b t) <->
  exists args body returns type_params lineno,
    (false, FunctionDef name args body [] returns type_params lineno) ∈ visited b t.
Proof.
  unfold keys. rewrite list_elem_of_fmap. split.
  - intros ([k info] & -> & H). apply elem_of_recorded_functions in H.
    destruct H as (_ & args & body & r & tps & H). cbn. eauto 10.
  - intros (args & body & r & tps & l & H).
    exists (name, {| func_name := name; func_lineno := l |}). split; [reflexivity|].
    apply elem_of_recorded_functions. split; [reflexivity|]. cbn. eauto 10.
Qed.

Lemma elem_of_decorated_names (l : list (bool * node)) (name : string) :
  name ∈ flat_map decorated_names l <->
  exists args body d decorator_list returns type_params lineno,
    (false, FunctionDef name args body (d :: decorator_list) returns type_params lineno) ∈ l.
Proof.
  rewrite list_elem_of_In, in_flat_map. split.
  - intros ([b' n] & Hn & H). apply list_elem_of_In in Hn.
    destruct b'; [now cbn in H|].
    destruct n as [ | | | name' args body [|d ds] r tps ln | | | | ]; try now cbn in H.
    cbn in H. destruct H as [-> | []]. eauto 10.
  - intros (args & body & d & ds & r & tps & ln & H). eexists. split.
    + apply list_elem_of_In, H.
    + cbn. now left.
Qed.

Lemma function_records_key (t : node) (name : string) :
  name ∈ keys (defined_funcs (visit t init)) <->
  exists args body returns type_params lineno,
    (false, FunctionDef name args body [] returns type_params lineno)
      ∈ visited false t.
Proof.
  rewrite defined_funcs_visit. cbn [in_class defined_funcs init].
  rewrite keys_dict_update, keys_recorded_functions. cbn. rewrite elem_of_nil. tauto.
Qed.

(** *** Calls, bindings and entries *)

Lemma fold_visited_set (g : bool -> node -> gset string -> gset string) (x : string) :
  (forall b n U, x ∈ g b n U <-> x ∈ U \/ x ∈ g b n ∅) ->
  forall (l : list (bool * node)) (U : gset string),
    x ∈ fold_visited g l U <-> x ∈ U \/ exists b n, (b, n) ∈ l /\ x ∈ g b n ∅.
Proof.
  intros Hg l. induction l as [|[b n] l IH]; intros U.
  - split; [now left|]. intros [H | (b & n & H & _)]; [exact H|].
    now apply elem_of_nil in H.
  - change (fold_visited g ((b, n) :: l) U) with (fold_visited g l (g b n U)).
    rewrite IH, Hg. split.
    + intros [[H | H] | (b' & n' & H & Hx)]; [now left | |].
      * right. exists b, n. split; [left | exact H].
      * right. exists b', n'. split; [now right | exact Hx].
    + intros [H | (b' & n' & H & Hx)]; [now left; left|].
      apply elem_of_cons in H as [Heq | H].
      * injection Heq as -> ->. now left; right.
      * right. exists b', n'. now split.
Qed.

Lemma enter_called_funcs (n : node) (s : CodeVisitor) :
  called_funcs (enter n s) = called_step (in_class s) n (called_funcs s).
Proof.
  destruct n as [names l | m names l | | name args body decos r tps l
                | func | value | | ]; cbn [enter called_step]; try reflexivity.
  - unfold visit_Import. now apply fold_left_inv.
  - unfold visit_ImportFrom. apply fold_left_inv; [reflexivity|].
    intros a b Ha. now destruct (negb _).
  - unfold visit_FunctionDef. now destruct (in_class s), decos.
  - unfold visit_Call.
    destruct func as [ | | | | | [ | | id c | | | | | ] | | ]; try reflexivity.
    now destruct (String.eqb id "self").
  - unfold visit_Attribute. destruct value; try reflexivity.
    now destruct (String.eqb _ _).
Qed.

Lemma elem_of_called_step (x : string) (b : bool) (n : node) (C : gset string) :
  x ∈ called_step b n C <-> x ∈ C \/ x ∈ called_step b n ∅.
Proof.
  destruct n as [ | | | | [ | | | | | [ | | id c | | | | | ] | | ]
                | [ | | id c | | | | | ] | | ]; cbn;
    try destruct (String.eqb id "self"); set_solver.
Qed.

Lemma called_funcs_visit (x : string) (t : node) (s : CodeVisitor) :
  x ∈ called_funcs (visit t s) <->
  x ∈ called_funcs s \/ calls_name t x \/ reads_self_attribute t x.
Proof.
  rewrite (visit_field called_funcs called_step enter_called_funcs) by reflexivity.
  rewrite (fold_visited_set called_step x (elem_of_called_step x)).
  apply or_iff_compat_l. unfold calls_name, reads_self_attribute. split.
  - intros (b & n & Hn & Hx).
    assert (Hs : n ∈ subnodes t) by (apply (elem_of_subnodes (in_class s)); eauto).
    destruct n as [ | | | | [ | | id c | | | [ | | id c | | | | | ] a c' | | ] args kws
                  | [ | | id c | | | | | ] a c' | | ];
      cbn in Hx; try (now apply not_elem_of_empty in Hx).
    + left. exists c, args, kws. now replace x with id by set_solver.
    + destruct (String.eqb_spec id "self") as [->|]; [|now apply not_elem_of_empty in Hx].
      right. exists c, c'. replace x with a by set_solver.
      eapply subnodes_child; [exact Hs | left].
    + destruct (String.eqb_spec id "self") as [->|]; [|now apply not_elem_of_empty in Hx].
      right. exists c, c'. now replace x with a by set_solver.
  - intros [(c & args & kws & Hs) | (c & c' & Hs)];
      apply (elem_of_subnodes (in_class s)) in Hs as (b & Hs); eexists b, _;
      (split; [exact Hs | cbn; set_solver]).
Qed.

Lemma keys_direct_imports (t : node) (name : string) :
  name ∈ keys (direct_imports t) <-> binds_direct t name.
Proof.
  unfold keys, direct_imports, binds_direct. rewrite list_elem_of_fmap. split.
  - intros ([k i] & -> & H). apply list_elem_of_In, in_flat_map in H as (n & Hn & H).
    destruct n as [names l | | | | | | | ]; try now cbn in H.
    cbn in H. apply in_map_iff in H as (a & [= <- _] & Ha).
    exists names, l, a. now rewrite !list_elem_of_In.
  - intros (names & l & a & Hn & Ha & <-).
    eexists (_, _). split; [reflexivity|]. apply list_elem_of_In, in_flat_map.
    exists (Import names l). split; [now apply list_elem_of_In|].
    cbn. apply in_map_iff. exists a. split; [reflexivity | now apply list_elem_of_In].
Qed.

Lemma keys_from_imports (t : node) (name : string) :
  name ∈ keys (from_imports t) <-> binds_from t name.
Proof.
  unfold keys, from_imports, binds_from. rewrite list_elem_of_fmap. split.
  - intros ([k i] & -> & H). apply list_elem_of_In, in_flat_map in H as (n & Hn & H).
    destruct n as [ | m names l | | | | | | ]; try now cbn in H.
    cbn in H. apply in_map_iff in H as (a & [= <- _] & Ha).
    apply filter_In in Ha as [Ha Hstar]. apply negb_true_iff, String.eqb_neq in Hstar.
    exists m, names, l, a. now rewrite !list_elem_of_In.
  - intros (m & names & l & a & Hn & Ha & <- & Hstar).
    eexists (_, _). split; [reflexivity|]. apply list_elem_of_In, in_flat_map.
    exists (ImportFrom m names l). split; [now apply list_elem_of_In|].
    cbn. apply in_map_iff. exists a. split; [reflexivity|].
    apply filter_In. split; [now apply list_elem_of_In|].
    now apply negb_true_iff, String.eqb_neq.
Qed.

Lemma dict_update_elem {V} (d : dict V) (l : list (string * V)) (k : string) (v : V) :
  NoDup (keys d) -> (k, v) ∈ dict_update d l -> (k, v) ∈ d \/ (k, v) ∈ l.
Proof.
  intros Hnd H. apply dict_elem_get in H; [|now apply NoDup_dict_update].
  rewrite dict_get_update in H. destruct (last_binding l k) as [v'|] eqn:E.
  - injection H as ->. right. now apply last_binding_elem.
  - left. now apply dict_get_elem.
Qed.

Lemma kept_elem {V} (p : string -> bool) (l : dict V) (kv : string * V) :
  kv ∈ kept p l -> kv ∈ l.
Proof. unfold kept. rewrite !list_elem_of_In, filter_In. tauto. Qed.

Lemma elem_of_sorted_by_lineno {V} (lineno_of : V -> Z) (l : dict V) (kv : string * V) :
  kv ∈ sorted_by_lineno lineno_of l <-> kv ∈ l.
Proof. now rewrite (sorted_by_lineno_perm lineno_of l). Qed.

(** *** Printing *)

Lemma print_lines_all (prints : line -> bool) (out : list line) :
  Forall (fun l => prints l = true) out -> print_lines prints out = (out, true).
Proof.
  induction 1 as [|l r Hl _ IH]; [reflexivity|]. cbn. now rewrite Hl, IH.
Qed.

Lemma print_lines_true (prints : line -> bool) (out printed : list line) :
  print_lines prints out = (printed, true) ->
  printed = out /\ Forall (fun l => prints l = true) out.
Proof.
  revert printed. induction out as [|l r IH]; intros printed; cbn.
  - intros [= <-]. split; [reflexivity | constructor].
  - destruct (prints l) eqn:El; [|discriminate].
    destruct (print_lines prints r) as [p ok]. intros [= <- ->].
    destruct (IH p eq_refl) as [-> Hr]. split; [reflexivity | now constructor].
Qed.

Lemma print_lines_false (prints : line -> bool) (out printed : list line) :
  print_lines prints out = (printed, false) ->
  exists l rest, out = printed ++ l :: rest /\ prints l = false /\
                 Forall (fun l => prints l = true) printed.
Proof.
  revert printed. induction out as [|l r IH]; intros printed; cbn; [discriminate|].
  destruct (prints l) eqn:El.
  - destruct (print_lines prints r) as [p ok]. intros [= <- ->].
    destruct (IH p eq_refl) as (l' & rest & -> & Hl' & Hp).
    exists l', rest. repeat split; [exact Hl' | now constructor].
  - intros [= <-]. exists l, r. repeat split; [exact El | constructor].
Qed.

(** ** The claims *)

(** C1 (as stated, refuted): a run that reports a finding still ends with
    exit status 0: [has_issues] only decides whether the closing
    confirmation line is printed. *)
Lemma C1_findings_exit_success :
  let r := analyze prints_all 1000 (Parsed (Module_ [Import [mk_alias "os" None] 1]))
             "f.py" false false false in
  ~ (findings (fst r) <> [] -> snd r <> 0).
Proof. vm_compute. intros H. now apply H. Qed.

(** C1 (amended): the exit status of [analyze] is 0 exactly when the file
    was read and parsed, the visitor finished and every print of the report
    returned, whatever was found; in every other case it is 1. *)
Theorem analyze_exit_status (prints : line -> bool) (depth : nat) (src : source)
    (python_file : string) (quiet no_imports no_functions : bool) :
  let r := analyze prints depth src python_file quiet no_imports no_functions in
  (snd r = 0 <-> exists tree visitor,
      src = Parsed tree /\ visit_lim depth tree init = Done visitor /\
      Forall (fun l => prints l = true)
        (fst (report visitor python_file quiet no_imports no_functions))) /\
  (snd r <> 0 -> snd r = 1).
Proof.
  unfold analyze, except_handler. destruct src as [ | | tree]; cbn.
  - split; [|reflexivity]. split; [discriminate | now intros (? & ? & [=] & _)].
  - split; [|reflexivity]. split; [discriminate | now intros (? & ? & [=] & _)].
  - destruct (visit_lim depth tree init) as [v|v] eqn:E; cbn.
    + unfold print_report, except_handler.
      destruct (print_lines prints _) as [printed [|]] eqn:Ep; cbn.
      * split; [|easy]. split; [|reflexivity]. intros _. exists tree, v.
        apply print_lines_true in Ep as [_ H]. now repeat split.
      * split; [|reflexivity]. split; [discriminate|].
        intros (t' & v' & [= <-] & Hv & Hall). rewrite E in Hv. injection Hv as <-.
        now rewrite (print_lines_all _ _ Hall) in Ep.
    + split; [|reflexivity]. split; [discriminate|].
      intros (t' & v' & [= <-] & H & _). congruence.
Qed.

(** C2 (as stated, refuted): a from-import on line 1 and a direct import of
    the same name on line 2: the result holds the earlier declaration. *)
Lemma C2_from_import_outlives_later_import :
  reported_imports
    (visit (Module_ [ImportFrom (Some "a") [mk_alias "x" None] 1;
                     Import [mk_alias "x" None] 2]) init)
  = [("x", {| module_of := "a"; import_lineno := 1; is_from := true |})].
Proof. vm_compute. reflexivity. Qed.

(** C2 (amended): a name has at most one entry in the unused-import result.
    For a name that is not used, the entry is the last from-import that
    binds it when there is one, else the last direct import that binds it:
    a later declaration replaces an earlier one of the same kind, and a
    from-import replaces a direct import wherever the two stand. *)
Theorem unused_import_is_last_binding (t : node) (name : string) :
  let v := visit t init in
  NoDup (keys (get_unused_imports v)) /\
  dict_get (get_unused_imports v) name
  = if bool_decide (name ∈ used_names v) then None
    else match last_binding (from_imports t) name with
         | Some info => Some info
         | None => last_binding (direct_imports t) name
         end.
Proof.
  cbn. split; [apply get_unused_imports_NoDup|].
  assert (Hi : imports (visit t init) = dict_update [] (direct_imports t))
    by apply imports_visit.
  assert (Hf : import_froms (visit t init) = dict_update [] (from_imports t))
    by apply import_froms_visit.
  rewrite get_unused_imports_get.
  - rewrite Hi, Hf, !dict_get_update. cbn.
    now destruct (last_binding (from_imports t) name),
                 (last_binding (direct_imports t) name).
  - rewrite Hi. apply NoDup_dict_update. constructor.
  - rewrite Hf. apply NoDup_dict_update. constructor.
Qed.

(** C3 (as stated, refuted): a function nested inside another function is
    recorded. *)
Lemma C3_nested_function_recorded :
  dict_get
    (defined_funcs
       (visit (Module_ [FunctionDef "outer" (Other [])
                          [FunctionDef "inner" (Other []) [Other []] [] None [] 2]
                          [] None [] 1]) init))
    "inner"
  = Some {| func_name := "inner"; func_lineno := 2 |}.
Proof. vm_compute. reflexivity. Qed.

(** C3 (amended): a name is in the record map exactly when the tree has a
    [FunctionDef] of that name with no decorator that is not inside a class
    (inside another function or not); the record holds the name and the
    line of such a definition. *)
Theorem function_recorded_iff (t : node) (name : string) :
  let v := visit t init in
  (name ∈ keys (defined_funcs v) <->
   exists args body returns type_params lineno,
     (false, FunctionDef name args body [] returns type_params lineno)
       ∈ visited false t) /\
  (forall info, dict_get (defined_funcs v) name = Some info ->
     func_name info = name /\
     exists args body returns type_params,
       (false, FunctionDef name args body [] returns type_params (func_lineno info))
         ∈ visited false t).
Proof.
  cbn. split; [apply function_records_key|].
  rewrite defined_funcs_visit. cbn [in_class defined_funcs init].
  intros info. rewrite dict_get_update. cbn.
  destruct (last_binding _ name) as [i|] eqn:E; [|discriminate].
  intros [= ->]. now apply last_binding_elem, elem_of_recorded_functions in E.
Qed.

(** C4 (as stated, refuted): the identifier [os] occurs in the file, as
    the attribute name of [x.os], and [import os] is reported all the same:
    only a [Name] node counts as an occurrence. *)
Lemma C4_attribute_name_is_no_use :
  let t := Module_ [Import [mk_alias "os" None] 1;
                    Other [Attribute (Name "x" Load) "os" Load]] in
  Attribute (Name "x" Load) "os" Load ∈ subnodes t /\
  reported_imports (visit t init)
  = [("os", {| module_of := "os"; import_lineno := 1; is_from := false |})].
Proof.
  cbn zeta. split; [|vm_compute; reflexivity].
  vm_compute. do 3 right. left.
Qed.

(** C4 (amended): a name is reported as an unused import exactly when an
    import statement of the file binds it (a wildcard aside) and it is not
    in [used_names]; it is in [used_names] exactly when the file has a
    [Name] node with that identifier, wherever that node stands, so such a
    node keeps it out of the report and nothing else does. *)
Theorem unused_import_iff (t : node) (name : string) :
  let v := visit t init in
  (name ∈ keys (reported_imports v) <->
   (binds_direct t name \/ binds_from t name) /\ name ∉ used_names v) /\
  (name ∈ used_names v <-> names_identifier t name) /\
  (name ∈ keys (reported_imports v) <->
   (binds_direct t name \/ binds_from t name) /\ ~ names_identifier t name).
Proof.
  cbn zeta.
  assert (Hr : name ∈ keys (reported_imports (visit t init)) <->
               (binds_direct t name \/ binds_from t name) /\
               name ∉ used_names (visit t init)).
  { unfold reported_imports.
    rewrite keys_sorted_by_lineno, keys_get_unused_imports.
    rewrite imports_visit, import_froms_visit, !keys_dict_update.
    rewrite keys_direct_imports, keys_from_imports.
    cbn. rewrite elem_of_nil. tauto. }
  assert (Hu : name ∈ used_names (visit t init) <-> names_identifier t name).
  { rewrite used_names_visit. cbn. rewrite elem_of_empty.
    unfold names_identifier. tauto. }
  split; [exact Hr|]. split; [exact Hu|]. rewrite Hr, Hu. reflexivity.
Qed.

(** C5 (as stated, refuted): a name that is only assigned to
    ([os = 1], a [Name] with context [Store]) is in [used_names] and keeps
    [import os] out of the unused imports. *)
Lemma C5_assignment_target_is_used :
  let v := visit (Module_ [Import [mk_alias "os" None] 1;
                           Other [Name "os" Store; Other []]]) init in
  bool_decide ("os" ∈ used_names v) = true /\ get_unused_imports v = [].
Proof. vm_compute. split; reflexivity. Qed.

(** C5 (amended): an identifier is in [used_names] exactly when the tree has
    a [Name] node with that identifier, in whatever context (read, written or
    deleted); the base of an attribute access is such a node. *)
Theorem used_names_iff (t : node) (x : string) :
  x ∈ used_names (visit t init) <-> exists ctx, Name x ctx ∈ subnodes t.
Proof.
  rewrite used_names_visit. cbn. rewrite elem_of_empty. tauto.
Qed.





(** C8 (as stated, refuted): [run] is defined inside a class body, and its
    name is in the record map and in the unused-function output, because a
    function of the same name is defined outside the class. *)
Lemma C8_method_name_reported :
  let t := Module_ [ClassDef "K" [] []
                      [FunctionDef "run" (Other []) [Other []] [] None [] 2] [] [];
                    FunctionDef "run" (Other []) [Other []] [] None [] 4] in
  (true, FunctionDef "run" (Other []) [Other []] [] None [] 2) ∈ visited false t /\
  bool_decide ("run" ∈ keys (defined_funcs (visit t init))) = true /\
  reported_functions (visit t init)
  = [("run", {| func_name := "run"; func_lineno := 4 |})].
Proof.
  cbn zeta. split; [|vm_compute; split; reflexivity].
  vm_compute. do 2 right. left.
Qed.

(** C8 (amended): a function definition inside a class never makes a
    record and never adds to the unused functions, whatever is or is not
    called: the visit of a class leaves the record map as it was and every
    unused function after it was one before it.  A name is in the record
    map, or reported, only when the file defines it without decorator
    outside every class, and a reported entry carries the line of such a
    definition. *)
Theorem methods_never_recorded :
  (forall name bases keywords body decorator_list type_params s,
     let v := visit (ClassDef name bases keywords body decorator_list type_params) s in
     defined_funcs v = defined_funcs s /\
     forall k, k ∈ keys (get_unused_functions v) -> k ∈ keys (get_unused_functions s)) /\
  (forall t name,
     let v := visit t init in
     (name ∈ keys (defined_funcs v) <-> defines_function t name) /\
     (name ∈ keys (reported_functions v) -> defines_function t name) /\
     (forall info, (name, info) ∈ reported_functions v ->
        exists args body returns type_params,
          (false, FunctionDef name args body [] returns type_params (func_lineno info))
            ∈ visited false t)).
Proof.
  split.
  - intros name bases keywords body decos tps s. cbn zeta.
    assert (Hd : defined_funcs
                   (visit (ClassDef name bases keywords body decos tps) s)
                 = defined_funcs s).
    { rewrite defined_funcs_visit. unfold recorded_functions. rewrite visited_unfold.
      cbn [flat_map is_ClassDef]. rewrite orb_true_r.
      assert (forall l, flat_map function_records (flat_map (visited true) l) = []) as ->.
      { induction l as [|c l IH]; [reflexivity|]. cbn [flat_map].
        rewrite flat_map_app, IH, app_nil_r. apply recorded_functions_in_class. }
      now destruct (in_class s). }
    split; [exact Hd|]. intros k. rewrite !keys_get_unused_functions, Hd.
    intros (Hk & Hc & Hdec). repeat split; [exact Hk | |].
    + intros H. apply Hc, called_funcs_visit. now left.
    + intros H. apply Hdec, decorated_funcs_visit. now left.
  - intros t name. cbn zeta.
    assert (Hk : name ∈ keys (defined_funcs (visit t init)) <-> defines_function t name)
      by apply function_records_key.
    split; [exact Hk|]. split.
    + unfold reported_functions.
      rewrite keys_sorted_by_lineno, keys_get_unused_functions. tauto.
    + intros info H. apply elem_of_sorted_by_lineno in H.
      change (get_unused_functions (visit t init))
        with (select (uncalled_name (visit t init)) [] (defined_funcs (visit t init))) in H.
      rewrite select_update in H.
      apply dict_update_elem in H as [H | H]; [now apply elem_of_nil in H | | constructor].
      apply kept_elem in H. rewrite defined_funcs_visit in H.
      apply dict_update_elem in H as [H | H]; [now apply elem_of_nil in H | | constructor].
      now apply elem_of_recorded_functions in H.
Qed.

(** C9 (as stated, refuted): a class body nested deeper than the call stack
    allows makes the descent raise, and the exception leaves the visitor
    inside the class: the two fields are not restored. *)
Lemma C9_context_not_restored_on_failure :
  let o := visit_lim 1000 (ClassDef "C" [] [] [nest 1000] [] []) init in
  has_raised o = true /\
  in_class (outcome_state o) = true /\ current_class (outcome_state o) = Some "C" /\
  in_class init = false /\ current_class init = None.
Proof. vm_compute. repeat split; reflexivity. Qed.

(** C9 (amended): a [ClassDef] visit that returns has saved the context, set
    it to inside-class with the class's name, visited every child under it,
    and put the saved context back: after the visit the two fields are what
    they were before, for nested classes too.  (A descent that raises does
    not restore them.) *)
Theorem class_context_restored (depth : nat) (name : string)
    (bases keywords body decorator_list type_params : list node)
    (s s' : CodeVisitor) :
  visit_lim depth (ClassDef name bases keywords body decorator_list type_params) s
  = Done s' ->
  s' = set_class_context
         (visit_all (bases ++ keywords ++ body ++ decorator_list ++ type_params)
            (set_class_context s true (Some name)))
         (in_class s) (current_class s) /\
  in_class s' = in_class s /\ current_class s' = current_class s.
Proof.
  intros H%visit_lim_done. subst s'. rewrite visit_unfold. repeat split.
Qed.

Lemma class_context_restored_witness :
  let c := ClassDef "Inner" [] []
             [FunctionDef "run" (Other []) [Other [Name "x" Load]] [] None [] 3] [] [] in
  let s := set_class_context init true (Some "Outer") in
  visit_lim 5 c s = Done (visit c s) /\
  (visit c s
   = set_class_context
       (visit_all [FunctionDef "run" (Other []) [Other [Name "x" Load]] [] None [] 3]
          (set_class_context s true (Some "Inner")))
       (in_class s) (current_class s) /\
   in_class (visit c s) = in_class s /\ current_class (visit c s) = current_class s).
Proof.
  cbn zeta.
  assert (H : visit_lim 5
                (ClassDef "Inner" [] []
                   [FunctionDef "run" (Other []) [Other [Name "x" Load]] [] None [] 3]
                   [] [])
                (set_class_context init true (Some "Outer"))
              = Done (visit
                        (ClassDef "Inner" [] []
                           [FunctionDef "run" (Other []) [Other [Name "x" Load]] [] None [] 3]
                           [] [])
                        (set_class_context init true (Some "Outer"))))
    by (vm_compute; reflexivity).
  split; [exact H|]. exact (class_context_restored _ _ _ _ _ _ _ _ _ H).
Defined.

(** C10: [import a.b] without an alias is recorded under the key [a.b]; no
    identifier contains a dot, so the key is never in [used_names] and the
    import is always among the unused imports, also when [a] is used
    through attribute access. *)
Theorem dotted_import_always_unused (t : node) (names : list alias) (lineno : Z)
    (a : alias) :
  Import names lineno ∈ subnodes t -> a ∈ names ->
  asname a = None -> dotted (alias_name a) = true ->
  (forall id ctx, Name id ctx ∈ subnodes t -> dotted id = false) ->
  let v := visit t init in
  alias_name a ∈ keys (imports v) /\
  (alias_name a ∉ used_names v) /\
  alias_name a ∈ keys (get_unused_imports v) /\
  alias_name a ∈ keys (reported_imports v).
Proof.
  intros Ht Ha Has Hdot Hid. cbn.
  assert (Hk : alias_name a ∈ keys (imports (visit t init))).
  { rewrite imports_visit, keys_dict_update. right.
    unfold keys, direct_imports. apply list_elem_of_fmap.
    exists (alias_name a, {| module_of := alias_name a; import_lineno := lineno;
                             is_from := false |}).
    split; [reflexivity|]. apply list_elem_of_In, in_flat_map.
    exists (Import names lineno). split; [now apply list_elem_of_In|].
    cbn. apply in_map_iff. exists a. split; [|now apply list_elem_of_In].
    unfold bound_name. now rewrite Has. }
  assert (Hu : alias_name a ∉ used_names (visit t init)).
  { intros Hu. apply used_names_visit in Hu as [Hu | (ctx & Hu)].
    - now apply elem_of_empty in Hu.
    - apply Hid in Hu. congruence. }
  unfold reported_imports. rewrite keys_sorted_by_lineno, keys_get_unused_imports.
  tauto.
Qed.

Lemma dotted_import_always_unused_witness :
  let t := Module_ [Import [mk_alias "a.b" None] 1;
                    Other [Call (Attribute (Attribute (Name "a" Load) "b" Load) "f" Load)
                             [] []]] in
  let v := visit t init in
  "a.b" ∈ keys (imports v) /\
  ("a.b" ∉ used_names v) /\
  "a.b" ∈ keys (get_unused_imports v) /\
  "a.b" ∈ keys (reported_imports v).
Proof.
  cbn zeta.
  apply (dotted_import_always_unused _ [mk_alias "a.b" None] 1 (mk_alias "a.b" None)).
  - vm_compute. right. left.
  - left.
  - reflexivity.
  - reflexivity.
  - intros id ctx H. vm_compute in H. elem_cases H. now injection H as -> _.
Defined.

(** ** Further properties of the visitor *)


Lemma decorated_funcs_init (t : node) (x : string) :
  x ∈ decorated_funcs (visit t init) <-> decorates_function t x.
Proof.
  rewrite decorated_funcs_visit, elem_of_decorated_names. cbn.
  rewrite elem_of_empty. unfold decorates_function. tauto.
Qed.

Lemma visit_init_NoDup (t : node) :
  NoDup (keys (defined_funcs (visit t init))) /\
  NoDup (keys (imports (visit t init))) /\
  NoDup (keys (import_froms (visit t init))).
Proof.
  rewrite defined_funcs_visit, imports_visit, import_froms_visit.
  repeat split; apply NoDup_dict_update; constructor.
Qed.

(** X2: a function name is reported unused exactly when the tree defines
    it without decorator outside any class, defines it nowhere outside a
    class with a decorator, never calls it by bare name and never accesses
    it as an attribute of [self]. *)
Theorem unused_function_iff (t : node) (name : string) :
  name ∈ keys (reported_functions (visit t init)) <->
  defines_function t name /\ ~ decorates_function t name /\
  ~ calls_name t name /\ ~ reads_self_attribute t name.
Proof.
  unfold reported_functions.
  rewrite keys_sorted_by_lineno, keys_get_unused_functions, function_records_key.
  fold (defines_function t name).
  rewrite decorated_funcs_init, called_funcs_visit. cbn. rewrite elem_of_empty. tauto.
Qed.

(** X3: an import name is reported unused exactly when some import
    statement of the tree binds it (a wildcard aside) and no [Name] node of
    the tree has it as identifier. *)
Theorem unused_import_tree_iff (t : node) (name : string) :
  name ∈ keys (reported_imports (visit t init)) <->
  (binds_direct t name \/ binds_from t name) /\ ~ names_identifier t name.
Proof.
  unfold reported_imports.
  rewrite keys_sorted_by_lineno, keys_get_unused_imports.
  rewrite imports_visit, import_froms_visit, !keys_dict_update.
  rewrite keys_direct_imports, keys_from_imports, used_names_visit.
  cbn. rewrite elem_of_nil, elem_of_empty. unfold names_identifier. tauto.
Qed.

(** X4: a wildcard from-import leaves no record: [*] is never a key of
    [import_froms], and it is never reported unless a direct import binds
    that very name. *)
Theorem wildcard_never_recorded (t : node) :
  ("*" ∉ keys (import_froms (visit t init))) /\
  (~ binds_direct t "*" -> "*" ∉ keys (reported_imports (visit t init))).
Proof.
  assert (Hf : ~ binds_from t "*") by (intros (? & ? & ? & ? & _ & _ & _ & H); easy).
  split.
  - rewrite import_froms_visit, keys_dict_update, keys_from_imports.
    cbn. rewrite elem_of_nil. tauto.
  - intros Hd. unfold reported_imports.
    rewrite keys_sorted_by_lineno, keys_get_unused_imports.
    rewrite imports_visit, import_froms_visit, !keys_dict_update.
    rewrite keys_direct_imports, keys_from_imports. cbn. rewrite elem_of_nil. tauto.
Qed.

Lemma NoDup_keys_select {V} (p : string -> bool) (l : dict V) :
  NoDup (keys (select p [] l)).
Proof. rewrite select_update. apply NoDup_dict_update. constructor. Qed.

Lemma NoDup_keys_sorted {V} (lineno_of : V -> Z) (l : dict V) :
  NoDup (keys l) -> NoDup (keys (sorted_by_lineno lineno_of l)).
Proof.
  unfold keys. now rewrite (Permutation_map fst (sorted_by_lineno_perm lineno_of l)).
Qed.

(** X5: whatever the visitor holds, no name is reported twice, neither
    among the unused functions nor among the unused imports. *)
Theorem reported_names_unique (v : CodeVisitor) :
  NoDup (keys (reported_functions v)) /\ NoDup (keys (reported_imports v)).
Proof.
  split; apply NoDup_keys_sorted.
  - apply (NoDup_keys_select (uncalled_name v)).
  - apply get_unused_imports_NoDup.
Qed.

Lemma direct_imports_kind (t : node) (k : string) (i : ImportInfo) :
  (k, i) ∈ direct_imports t -> is_from i = false.
Proof.
  unfold direct_imports. rewrite list_elem_of_In, in_flat_map. intros (n & _ & H).
  destruct n; try now cbn in H.
  cbn in H. now apply in_map_iff in H as (a & [= _ <-] & _).
Qed.

Lemma from_imports_kind (t : node) (k : string) (i : ImportInfo) :
  (k, i) ∈ from_imports t -> is_from i = true.
Proof.
  unfold from_imports. rewrite list_elem_of_In, in_flat_map. intros (n & _ & H).
  destruct n; try now cbn in H.
  cbn in H. now apply in_map_iff in H as (a & [= _ <-] & _).
Qed.

(** X6: every reported entry is a record of the visitor, unchanged: an
    unused function is an entry of [defined_funcs] whose stored name is its
    key; an unused import marked as from-import is an entry of
    [import_froms], one not so marked an entry of [imports]. *)
Theorem reported_entries_are_records (t : node) (k : string) :
  let v := visit t init in
  (forall i, (k, i) ∈ reported_functions v ->
             (k, i) ∈ defined_funcs v /\ func_name i = k) /\
  (forall i, (k, i) ∈ reported_imports v ->
             if is_from i then (k, i) ∈ import_froms v else (k, i) ∈ imports v).
Proof.
  cbn. split; intros i H.
  - apply elem_of_sorted_by_lineno in H.
    change (get_unused_functions (visit t init))
      with (select (uncalled_name (visit t init)) [] (defined_funcs (visit t init))) in H.
    rewrite select_update in H.
    apply dict_update_elem in H as [H | H]; [now apply elem_of_nil in H | | constructor].
    apply kept_elem in H. split; [exact H|].
    rewrite defined_funcs_visit in H.
    apply dict_update_elem in H as [H | H]; [now apply elem_of_nil in H | | constructor].
    now apply elem_of_recorded_functions in H.
  - apply elem_of_sorted_by_lineno in H. rewrite get_unused_imports_update in H.
    apply dict_update_elem in H as [H | H]; [now apply elem_of_nil in H | | constructor].
    apply elem_of_app in H as [H | H]; apply kept_elem in H.
    + assert (Hk : is_from i = false).
      { rewrite imports_visit in H. apply dict_update_elem in H as [H | H];
          [now apply elem_of_nil in H | | constructor].
        eapply direct_imports_kind, H. }
      now rewrite Hk.
    + assert (Hk : is_from i = true).
      { rewrite import_froms_visit in H. apply dict_update_elem in H as [H | H];
          [now apply elem_of_nil in H | | constructor].
        eapply from_imports_kind, H. }
      now rewrite Hk.
Qed.

(** X7: a visit only adds: whatever state it starts from, every used,
    called or decorated name and every key of the three record maps is
    still there afterwards. *)
Theorem visit_only_adds (t : node) (s : CodeVisitor) :
  let v := visit t s in
  used_names s ⊆ used_names v /\
  called_funcs s ⊆ called_funcs v /\
  decorated_funcs s ⊆ decorated_funcs v /\
  (forall k, k ∈ keys (defined_funcs s) -> k ∈ keys (defined_funcs v)) /\
  (forall k, k ∈ keys (imports s) -> k ∈ keys (imports v)) /\
  (forall k, k ∈ keys (import_froms s) -> k ∈ keys (import_froms v)).
Proof.
  cbn. repeat split.
  - intros x Hx. apply used_names_visit. now left.
  - intros x Hx. apply called_funcs_visit. now left.
  - intros x Hx. apply decorated_funcs_visit. now left.
  - intros k Hk. rewrite defined_funcs_visit, keys_dict_update. now left.
  - intros k Hk. rewrite imports_visit, keys_dict_update. now left.
  - intros k Hk. rewrite import_froms_visit, keys_dict_update. now left.
Qed.

(** X8: the visit of any node, whatever classes it contains, leaves
    [in_class] and [current_class] as they were before it. *)
Theorem class_context_preserved (t : node) (s : CodeVisitor) :
  in_class (visit t s) = in_class s /\ current_class (visit t s) = current_class s.
Proof.
  revert s. induction t as [t IH] using node_children_ind. intros s.
  rewrite visit_unfold. destruct (is_ClassDef t) eqn:Hc.
  - destruct t; try discriminate. split; reflexivity.
  - assert (leave t s (visit_all (children t) (enter t s))
            = visit_all (children t) (enter t s)) as -> by (destruct t; easy).
    destruct (visit_all_context (children t) (enter t s)) as [-> ->].
    + eapply Forall_impl; [exact IH|]. intros c Hc' s'. apply Hc'.
    + now apply enter_context.
Qed.

Lemma decorated_names_in_class (l : list node) :
  flat_map decorated_names (flat_map (visited true) l) = [].
Proof.
  assert (H : forall bn, bn ∈ flat_map (visited true) l -> decorated_names bn = []).
  { intros [b n] H. apply list_elem_of_In, in_flat_map in H as (c & _ & H).
    apply list_elem_of_In, visited_true in H as ->. reflexivity. }
  induction (flat_map (visited true) l) as [|bn l' IH]; [reflexivity|].
  cbn. rewrite H by left. apply IH. intros bn' Hbn. apply H. now right.
Qed.

(** X9: a decorator inside a class exempts nothing: the visit of a class
    leaves [decorated_funcs] as it was. *)
Theorem class_leaves_decorated_funcs (name : string)
    (bases keywords body decorator_list type_params : list node) (s : CodeVisitor) :
  decorated_funcs
    (visit (ClassDef name bases keywords body decorator_list type_params) s)
  = decorated_funcs s.
Proof.
  apply set_eq. intros x. rewrite decorated_funcs_visit, visited_unfold.
  cbn [flat_map is_ClassDef]. rewrite orb_true_r, decorated_names_in_class.
  assert (decorated_names
            (in_class s, ClassDef name bases keywords body decorator_list type_params)
          = []) as -> by now destruct (in_class s).
  cbn. rewrite elem_of_nil. tauto.
Qed.

(** X10: the record of a function name is that of its last definition
    without decorator outside a class: a later redefinition replaces an
    earlier one. *)
Theorem function_record_is_last_definition (t : node) (name : string) :
  dict_get (defined_funcs (visit t init)) name
  = last_binding (recorded_functions false t) name.
Proof.
  rewrite defined_funcs_visit, dict_get_update. cbn.
  now destruct (last_binding _ name).
Qed.

(** X11: the unused functions are the records of [defined_funcs] that are
    neither called nor decorated, in the order of [defined_funcs] and each
    once: the resolver filters, it neither reorders nor merges. *)
Theorem unused_functions_are_filtered (t : node) :
  let v := visit t init in
  get_unused_functions v = kept (uncalled_name v) (defined_funcs v).
Proof. cbn. apply get_unused_functions_kept, visit_init_NoDup. Qed.

(** ** The report *)

Lemma report_eq (v : CodeVisitor) (python_file : string)
    (quiet no_imports no_functions : bool) :
  report v python_file quiet no_imports no_functions
  = ((if found_functions v no_functions then function_lines v python_file quiet else []) ++
     (if found_imports v no_imports then import_lines v python_file quiet else []) ++
     (if negb (found_functions v no_functions || found_imports v no_imports) && negb quiet
      then [NoIssues python_file] else []),
     found_functions v no_functions || found_imports v no_imports).
Proof.
  unfold report, found_functions, found_imports, function_lines, import_lines.
  destruct no_functions, no_imports, quiet,
    (is_empty (get_unused_functions v)), (is_empty (get_unused_imports v));
    cbn [negb andb orb app]; rewrite ?app_nil_r; reflexivity.
Qed.

Lemma findings_app (l1 l2 : list line) :
  findings (l1 ++ l2) = findings l1 ++ findings l2.
Proof. unfold findings. apply List.filter_app. Qed.

Lemma findings_map_all {A} (f : A -> line) (l : list A) :
  (forall a, is_finding (f a) = true) -> findings (map f l) = map f l.
Proof.
  intros Hf. unfold findings. induction l as [|a l IH]; [reflexivity|].
  cbn. now rewrite Hf, IH.
Qed.

Lemma length_sorted_by_lineno {V} (lineno_of : V -> Z) (l : dict V) :
  length (sorted_by_lineno lineno_of l) = length l.
Proof. apply Permutation_length, sorted_by_lineno_perm. Qed.

Lemma length_findings_function_lines (v : CodeVisitor) (f : string) (q : bool) :
  length (findings (function_lines v f q)) = length (get_unused_functions v).
Proof.
  unfold function_lines. rewrite findings_app, length_app.
  rewrite findings_map_all by (intros [? ?]; now destruct q).
  rewrite length_map. unfold reported_functions. rewrite length_sorted_by_lineno.
  now destruct q.
Qed.

Lemma length_findings_import_lines (v : CodeVisitor) (f : string) (q : bool) :
  length (findings (import_lines v f q)) = length (get_unused_imports v).
Proof.
  unfold import_lines. rewrite findings_app, length_app.
  rewrite findings_map_all by (intros [? ?]; now destruct q).
  rewrite length_map. unfold reported_imports. rewrite length_sorted_by_lineno.
  now destruct q.
Qed.

Lemma is_empty_length {A} (l : list A) : is_empty l = true -> length l = O.
Proof. now destruct l. Qed.

Lemma findings_closing (b : bool) (f : string) :
  findings (if b then [NoIssues f] else []) = [].
Proof. now destruct b. Qed.

(** X12: the report has one finding line for each unused function, when
    functions are checked, and one for each unused import, when imports are
    checked; nothing is reported for a check that is switched off. *)
Theorem report_findings_count (v : CodeVisitor) (python_file : string)
    (quiet no_imports no_functions : bool) :
  length (findings (fst (report v python_file quiet no_imports no_functions)))
  = ((if no_functions then O else length (get_unused_functions v))
     + (if no_imports then O else length (get_unused_imports v)))%nat.
Proof.
  rewrite report_eq. cbn [fst]. rewrite !findings_app, !length_app, findings_closing.
  cbn [length]. rewrite Nat.add_0_r. unfold found_functions, found_imports. f_equal.
  - destruct no_functions; [reflexivity|]. cbn [negb andb].
    destruct (is_empty (get_unused_functions v)) eqn:E; cbn [negb].
    + now rewrite (is_empty_length _ E).
    + apply length_findings_function_lines.
  - destruct no_imports; [reflexivity|]. cbn [negb andb].
    destruct (is_empty (get_unused_imports v)) eqn:E; cbn [negb].
    + now rewrite (is_empty_length _ E).
    + apply length_findings_import_lines.
Qed.

Lemma found_functions_length (v : CodeVisitor) (nf : bool) :
  found_functions v nf = true -> (0 < length (get_unused_functions v))%nat.
Proof.
  unfold found_functions. intros [_ H]%andb_true_iff.
  destruct (get_unused_functions v); [discriminate | cbn; lia].
Qed.

Lemma found_imports_length (v : CodeVisitor) (ni : bool) :
  found_imports v ni = true -> (0 < length (get_unused_imports v))%nat.
Proof.
  unfold found_imports. intros [_ H]%andb_true_iff.
  destruct (get_unused_imports v); [discriminate | cbn; lia].
Qed.

(** X13: [has_issues] is set exactly when the report has a finding line. *)
Theorem has_issues_iff_findings (v : CodeVisitor) (python_file : string)
    (quiet no_imports no_functions : bool) :
  snd (report v python_file quiet no_imports no_functions) = true <->
  findings (fst (report v python_file quiet no_imports no_functions)) <> [].
Proof.
  rewrite report_eq. cbn [fst snd]. rewrite !findings_app, findings_closing, app_nil_r.
  split.
  - intros H Hf. apply (f_equal (@length line)) in Hf. rewrite length_app in Hf.
    cbn [length] in Hf. apply orb_true_iff in H as [H | H]; rewrite H in Hf.
    + apply found_functions_length in H.
      rewrite length_findings_function_lines in Hf. lia.
    + apply found_imports_length in H.
      rewrite length_findings_import_lines in Hf. lia.
  - intros H. destruct (found_functions v no_functions); [reflexivity|].
    destruct (found_imports v no_imports); [reflexivity|]. now cbn in H.
Qed.

Lemma function_lines_kind (v : CodeVisitor) (f : string) (q : bool) (l : line) :
  l ∈ function_lines v f q ->
  is_finding l = true \/ (q = false /\ exists n, l = FuncBanner n f).
Proof.
  unfold function_lines. intros [H | H]%elem_of_app.
  - destruct q; [now apply elem_of_nil in H|].
    apply list_elem_of_singleton in H as ->. right. eauto.
  - apply list_elem_of_fmap in H as ([k i] & -> & _). left. now destruct q.
Qed.

Lemma import_lines_kind (v : CodeVisitor) (f : string) (q : bool) (l : line) :
  l ∈ import_lines v f q ->
  is_finding l = true \/ (q = false /\ exists n, l = ImportBanner n f).
Proof.
  unfold import_lines. intros [H | H]%elem_of_app.
  - destruct q; [now apply elem_of_nil in H|].
    apply list_elem_of_singleton in H as ->. right. eauto.
  - apply list_elem_of_fmap in H as ([k i] & -> & _). left. now destruct q.
Qed.

Lemma report_line_kind (v : CodeVisitor) (f : string) (q ni nf : bool) (l : line) :
  l ∈ fst (report v f q ni nf) ->
  is_finding l = true \/
  (q = false /\ ((exists n, l = FuncBanner n f) \/ (exists n, l = ImportBanner n f) \/
                 (l = NoIssues f /\ snd (report v f q ni nf) = false))).
Proof.
  rewrite report_eq. cbn [fst snd]. rewrite !elem_of_app. intros [H | [H | H]].
  - destruct (found_functions v nf); [|now apply elem_of_nil in H].
    apply function_lines_kind in H as [H | [-> H]]; [now left | right; eauto].
  - destruct (found_imports v ni); [|now apply elem_of_nil in H].
    apply import_lines_kind in H as [H | [-> H]]; [now left | right; eauto].
  - destruct (found_functions v nf || found_imports v ni); cbn in H;
      [now apply elem_of_nil in H|].
    destruct q; cbn in H; [now apply elem_of_nil in H|].
    apply list_elem_of_singleton in H as ->. right. eauto.
Qed.

(** X14: the confirmation line is printed exactly when the run is not
    quiet and no enabled check found anything; it then names the analyzed
    file. *)
Theorem closing_line_iff (v : CodeVisitor) (python_file file : string)
    (quiet no_imports no_functions : bool) :
  NoIssues file ∈ fst (report v python_file quiet no_imports no_functions) <->
  file = python_file /\ quiet = false /\
  snd (report v python_file quiet no_imports no_functions) = false.
Proof.
  split.
  - intros H. apply report_line_kind in H as [H | (-> & [[n H] | [[n H] | [H Hs]]])];
      try discriminate. now injection H as ->.
  - intros (-> & -> & Hs). rewrite report_eq in Hs |- *. cbn [fst snd] in *.
    rewrite Hs, !elem_of_app. right. right. left.
Qed.

(** X15: a quiet run prints finding lines only: no banner, no confirmation
    line; so it prints nothing at all when there is no finding. *)
Theorem quiet_report_only_findings (v : CodeVisitor) (python_file : string)
    (no_imports no_functions : bool) :
  let out := fst (report v python_file true no_imports no_functions) in
  Forall (fun l => is_finding l = true) out /\
  (snd (report v python_file true no_imports no_functions) = false -> out = []).
Proof.
  cbn zeta. split.
  - apply Forall_forall. intros l H.
    now apply report_line_kind in H as [H | [[=] _]].
  - rewrite report_eq. cbn [fst snd]. intros [H1 H2]%orb_false_iff.
    now rewrite H1, H2.
Qed.

(** X16: [analyze] exits with 0 only after printing the whole report, which
    holds no error line.  Otherwise it exits with 1 and has printed at most
    one error line, as its last line, after the part of the report printed
    before a print raised; that part is empty when the file is missing or
    unparsable or the traversal raised, and never the whole report. *)
Theorem analyze_report_or_error (prints : line -> bool) (depth : nat) (src : source)
    (python_file : string) (quiet no_imports no_functions : bool) :
  let r := analyze prints depth src python_file quiet no_imports no_functions in
  (snd r = 0 /\
   Forall (fun l => is_error l = false) (fst r) /\
   exists tree visitor,
     src = Parsed tree /\ visit_lim depth tree init = Done visitor /\
     fst r = fst (report visitor python_file quiet no_imports no_functions)) \/
  (snd r = 1 /\
   exists printed error,
     fst r = printed ++ error /\
     (error = [] \/ error = [ErrorNotFound python_file] \/ error = [ErrorAnalyzing]) /\
     (printed = [] \/
      exists tree visitor l rest,
        src = Parsed tree /\ visit_lim depth tree init = Done visitor /\
        fst (report visitor python_file quiet no_imports no_functions)
        = printed ++ l :: rest /\ prints l = false)).
Proof.
  unfold analyze, except_handler. destruct src as [ | | tree]; cbn zeta.
  - right. split; [reflexivity|]. cbn [fst app].
    exists [], (if prints (ErrorNotFound python_file) then [ErrorNotFound python_file] else []).
    split; [reflexivity|]. split; [destruct (prints _); auto | now left].
  - right. split; [reflexivity|]. cbn [fst app].
    exists [], (if prints ErrorAnalyzing then [ErrorAnalyzing] else []).
    split; [reflexivity|]. split; [destruct (prints _); auto | now left].
  - destruct (visit_lim depth tree init) as [v|v] eqn:E.
    + unfold print_report, except_handler.
      destruct (print_lines prints _) as [printed [|]] eqn:Ep.
      * left. apply print_lines_true in Ep as [-> _]. cbn [fst snd].
        split; [reflexivity|]. split; [|now exists tree, v].
        apply Forall_forall. intros l H.
        apply report_line_kind in H
          as [H | (_ & [[n ->] | [[n ->] | [-> _]]])]; try reflexivity.
        now destruct l.
      * right. split; [reflexivity|]. cbn [fst].
        exists printed, (if prints ErrorAnalyzing then [ErrorAnalyzing] else []).
        split; [reflexivity|]. split; [destruct (prints _); auto|].
        right. apply print_lines_false in Ep as (l & rest & Hout & Hl & _).
        now exists tree, v, l, rest.
    + right. split; [reflexivity|]. cbn [fst app].
      exists [], (if prints ErrorAnalyzing then [ErrorAnalyzing] else []).
      split; [reflexivity|]. split; [destruct (prints _); auto | now left].
Qed.

(** *** The stack bound *)

Lemma walk_monotone (f g : node -> CodeVisitor -> outcome) (l : list node)
    (s s' : CodeVisitor) :
  (forall c s s', f c s = Done s' -> g c s = Done s') ->
  walk f l s = Done s' -> walk g l s = Done s'.
Proof.
  intros Hfg. revert s. induction l as [|c l IH]; intros s; cbn; [easy|].
  destruct (f c s) as [s1|s1] eqn:E; [|discriminate].
  rewrite (Hfg _ _ _ E). apply IH.
Qed.

(** X17: a visit that finishes within some stack bound finishes within
    every larger one, with the same visitor state. *)
Theorem visit_lim_monotone (d d' : nat) (t : node) (s s' : CodeVisitor) :
  (d <= d')%nat -> visit_lim d t s = Done s' -> visit_lim d' t s = Done s'.
Proof.
  revert d' t s s'. induction d as [|d IH]; intros d' t s s' Hle; [discriminate|].
  destruct d' as [|d']; [lia|]. cbn [visit_lim].
  destruct (walk (visit_lim d) _ _) as [s1|s1] eqn:E; [|discriminate].
  intros [= <-].
  rewrite (walk_monotone (visit_lim d) (visit_lim d') _ _ _
             (fun c s s' => IH d' c s s' ltac:(lia)) E).
  reflexivity.
Qed.

Lemma visit_lim_monotone_witness :
  let t := Module_ [ClassDef "K" [] [] [Other [Name "x" Load]] [] []] in
  ((4 <= 9)%nat /\ visit_lim 4 t init = Done (visit t init)) /\
  visit_lim 9 t init = Done (visit t init).
Proof.
  cbn zeta.
  assert (H : visit_lim 4 (Module_ [ClassDef "K" [] [] [Other [Name "x" Load]] [] []]) init
              = Done (visit (Module_ [ClassDef "K" [] [] [Other [Name "x" Load]] [] []])
                        init))
    by (vm_compute; reflexivity).
  assert (Hle : (4 <= 9)%nat) by lia.
  split; [split; [exact Hle | exact H]|].
  exact (visit_lim_monotone 4 9 _ _ _ Hle H).
Defined.

(** X18: for every tree there is a stack bound from which on the traversal
    does not fail: [analyze] comes to printing the report of the unbounded
    visitor, and exits with 0 with that report printed whenever each of its
    prints returns. *)
Theorem analyze_with_enough_stack (tree : node) :
  exists d0, forall prints depth python_file quiet no_imports no_functions,
    (d0 <= depth)%nat ->
    let out := fst (report (visit tree init) python_file quiet no_imports no_functions) in
    analyze prints depth (Parsed tree) python_file quiet no_imports no_functions
    = print_report prints out /\
    (Forall (fun l => prints l = true) out ->
     analyze prints depth (Parsed tree) python_file quiet no_imports no_functions
     = (out, 0)).
Proof.
  destruct (visit_lim_enough tree) as [d0 H]. exists d0.
  intros prints depth f q ni nf Hd. cbn zeta. unfold analyze.
  rewrite (H depth init Hd). split; [reflexivity|].
  intros Hall. unfold print_report. now rewrite (print_lines_all _ _ Hall).
Qed.

(** *** Sorting *)

Lemma sorted_by_lineno_fixed {V} (lineno_of : V -> Z) (l : list (string * V)) :
  StronglySorted (line_le lineno_of) l -> sorted_by_lineno lineno_of l = l.
Proof.
  induction 1 as [|x l Hl IH Hx]; [reflexivity|].
  cbn [sorted_by_lineno foldr]. fold (sorted_by_lineno lineno_of l). rewrite IH.
  destruct l as [|y l]; [reflexivity|]. cbn [insert_by_lineno].
  apply Forall_cons in Hx as [Hxy _]. unfold line_le in Hxy.
  now apply Z.leb_le in Hxy as ->.
Qed.

(** X19: sorting by line is idempotent: a reported list sorted again is
    the same list, ties included. *)
Theorem sorted_by_lineno_idempotent {V} (lineno_of : V -> Z) (l : list (string * V)) :
  sorted_by_lineno lineno_of (sorted_by_lineno lineno_of l)
  = sorted_by_lineno lineno_of l.
Proof. apply sorted_by_lineno_fixed, sorted_by_lineno_sorted. Qed.

(** *** The order of the unused imports *)

(** X20: when no name is bound both by a direct import and by a
    from-import, the unused imports are the unused entries of [imports], in
    their order, followed by the unused entries of [import_froms], in
    theirs. *)
Theorem unused_imports_order (t : node) :
  let v := visit t init in
  (forall k, k ∈ keys (imports v) -> k ∉ keys (import_froms v)) ->
  get_unused_imports v
  = kept (unused_name v) (imports v) ++ kept (unused_name v) (import_froms v).
Proof.
  cbn zeta. intros Hdis. rewrite get_unused_imports_update.
  destruct (visit_init_NoDup t) as (_ & Hi & Hf).
  apply (dict_update_fresh []). unfold keys at 1 2. cbn [map app].
  rewrite map_app. fold (keys (kept (unused_name (visit t init)) (imports (visit t init)))).
  fold (keys (kept (unused_name (visit t init)) (import_froms (visit t init)))).
  apply NoDup_app. repeat split.
  - eapply sublist_NoDup; [exact Hi | apply keys_kept_sublist].
  - intros k [_ Hk]%keys_kept [_ Hk']%keys_kept. now apply (Hdis k).
  - eapply sublist_NoDup; [exact Hf | apply keys_kept_sublist].
Qed.

Lemma unused_imports_order_witness :
  let t := Module_ [Import [mk_alias "os" None; mk_alias "sys" None] 1;
                    ImportFrom (Some "math") [mk_alias "pi" None] 2;
                    Other [Name "sys" Load]] in
  let v := visit t init in
  (forall k, k ∈ keys (imports v) -> k ∉ keys (import_froms v)) /\
  get_unused_imports v
  = kept (unused_name v) (imports v) ++ kept (unused_name v) (import_froms v).
Proof.
  cbn zeta.
  assert (H : forall k,
             k ∈ keys (imports
                         (visit (Module_ [Import [mk_alias "os" None; mk_alias "sys" None] 1;
                                          ImportFrom (Some "math") [mk_alias "pi" None] 2;
                                          Other [Name "sys" Load]]) init)) ->
             k ∉ keys (import_froms
                         (visit (Module_ [Import [mk_alias "os" None; mk_alias "sys" None] 1;
                                          ImportFrom (Some "math") [mk_alias "pi" None] 2;
                                          Other [Name "sys" Load]]) init))).
  { intros k Hk Hk'. vm_compute in Hk, Hk'. elem_cases Hk; subst k; elem_cases Hk'. }
  split; [exact H|]. exact (unused_imports_order _ H).
Defined.

(** ** The default command *)

(** X21: the [__main__] block fails only on an empty argument vector.  A
    vector whose first argument is [analyze] or [doc] is handed on as it
    is; every other vector gets [analyze] inserted after the program name,
    its arguments kept in order behind it.  A second pass changes
    nothing. *)
Theorem default_command_spec (argv : list string) :
  match default_command argv with
  | None => argv = []
  | Some argv' =>
      exists prog rest,
        argv = prog :: rest /\
        ((exists cmd rest', rest = cmd :: rest' /\ (cmd = "analyze" \/ cmd = "doc")) /\
         argv' = argv
         \/
         (forall cmd rest', rest = cmd :: rest' -> cmd <> "analyze" /\ cmd <> "doc") /\
         argv' = prog :: "analyze" :: rest) /\
        default_command argv' = Some argv'
  end.
Proof.
  assert (Hcmd : forall cmd, cmd ∈ command_names <-> cmd = "analyze" \/ cmd = "doc").
  { intros cmd. unfold command_names.
    rewrite !elem_of_cons, elem_of_nil. tauto. }
  destruct argv as [|prog [|arg rest]]; cbn [default_command]; [reflexivity| |].
  - exists prog, []. split; [reflexivity|]. split; [|reflexivity].
    right. split; [intros cmd rest' [=] | reflexivity].
  - case_bool_decide as Harg.
    + exists prog, (arg :: rest). split; [reflexivity|]. split.
      * left. split; [|reflexivity]. exists arg, rest. split; [reflexivity|].
        now apply Hcmd.
      * cbn [default_command]. now rewrite bool_decide_eq_true_2.
    + exists prog, (arg :: rest). split; [reflexivity|]. split; [|reflexivity].
      right. split; [|reflexivity]. intros cmd rest' [= <- <-].
      rewrite Hcmd in Harg. tauto.
Qed.

(** ** The machine-readable report *)

Lemma map_is_empty {A B} (f : A -> B) (l : list A) :
  is_empty l = true -> map f l = [].
Proof. now destruct l. Qed.

Lemma sorted_is_empty {V} (lineno_of : V -> Z) (l : dict V) :
  is_empty l = true -> sorted_by_lineno lineno_of l = [].
Proof. now destruct l. Qed.

(** X22: a quiet run prints exactly one [func] line for each unused
    function, in line order, when functions are checked, followed by one
    [import] line for each unused import, in line order, when imports are
    checked. *)
Theorem quiet_report_lines (v : CodeVisitor) (python_file : string)
    (no_imports no_functions : bool) :
  fst (report v python_file true no_imports no_functions)
  = (if no_functions then []
     else map (fun kv => FuncQuiet python_file (func_lineno (snd kv)) (fst kv))
            (reported_functions v)) ++
    (if no_imports then []
     else map (fun kv => ImportQuiet python_file (import_lineno (snd kv)) (fst kv))
            (reported_imports v)).
Proof.
  rewrite report_eq. cbn [fst]. rewrite orb_comm, andb_false_r, app_nil_r.
  unfold found_functions, found_imports, function_lines, import_lines.
  cbn [app]. f_equal.
  - destruct no_functions; [reflexivity|]. cbn [negb andb].
    destruct (is_empty _) eqn:E; cbn [negb].
    + unfold reported_functions. now rewrite (sorted_is_empty _ _ E).
    + apply map_ext. now intros [k i].
  - destruct no_imports; [reflexivity|]. cbn [negb andb].
    destruct (is_empty _) eqn:E; cbn [negb].
    + unfold reported_imports. now rewrite (sorted_is_empty _ _ E).
    + apply map_ext. now intros [k i].
Qed.

(** ** The order of the statements *)

Lemma visited_Other (b0 b : bool) (l : list node) (n : node) :
  (b, n) ∈ visited b0 (Other l) <->
  (b, n) = (b0, Other l) \/ exists c, c ∈ l /\ (b, n) ∈ visited b0 c.
Proof.
  rewrite visited_unfold. cbn [children is_ClassDef]. rewrite orb_false_r, elem_of_cons.
  apply or_iff_compat_l. rewrite list_elem_of_In, in_flat_map.
  split; intros (c & Hc & H); exists c.
  - split; now apply list_elem_of_In.
  - split; now apply list_elem_of_In.
Qed.

Lemma visited_Other_perm (l1 l2 : list node) (b : bool) (n : node) :
  Permutation l1 l2 -> (forall fields, n <> Other fields) ->
  (b, n) ∈ visited false (Other l1) -> (b, n) ∈ visited false (Other l2).
Proof.
  intros Hp Hn. rewrite !visited_Other. intros [[= _ ->] | (c & Hc & H)].
  - now destruct (Hn l1).
  - right. exists c. now rewrite <- Hp.
Qed.

Lemma subnodes_Other_perm (l1 l2 : list node) (n : node) :
  Permutation l1 l2 -> (forall fields, n <> Other fields) ->
  n ∈ subnodes (Other l1) -> n ∈ subnodes (Other l2).
Proof.
  intros Hp Hn. rewrite !(elem_of_subnodes false). intros [b H]. exists b.
  eapply visited_Other_perm; eassumption.
Qed.

(** X23: the names reported do not depend on the order of the statements
    of the module: two modules with the same top-level statements in any
    order have the same unused function names and the same unused import
    names. *)
Theorem reported_names_order_independent (body body' : list node) (name : string) :
  Permutation body body' ->
  (name ∈ keys (reported_functions (visit (Module_ body) init)) ->
   name ∈ keys (reported_functions (visit (Module_ body') init))) /\
  (name ∈ keys (reported_imports (visit (Module_ body) init)) ->
   name ∈ keys (reported_imports (visit (Module_ body') init))).
Proof.
  intros Hp. assert (Hp' : Permutation body' body) by now symmetry.
  unfold Module_, reported_functions, reported_imports.
  rewrite !keys_sorted_by_lineno, !keys_get_unused_functions, !keys_get_unused_imports.
  rewrite !function_records_key, !decorated_funcs_init, !called_funcs_visit,
    !used_names_visit, !imports_visit, !import_froms_visit, !keys_dict_update,
    !keys_direct_imports, !keys_from_imports.
  cbn [init called_funcs used_names keys map]. rewrite !elem_of_empty, !elem_of_nil.
  assert (Hv : forall l1 l2 b n, Permutation l1 l2 -> (forall fields, n <> Other fields) ->
                 (b, n) ∈ visited false (Other l1) -> (b, n) ∈ visited false (Other l2))
    by (intros; eapply visited_Other_perm; eassumption).
  assert (Hs : forall l1 l2 n, Permutation l1 l2 -> (forall fields, n <> Other fields) ->
                 n ∈ subnodes (Other l1) -> n ∈ subnodes (Other l2))
    by (intros; eapply subnodes_Other_perm; eassumption).
  split.
  - intros ((a & b & r & tp & ln & Hd) & Hc & Hdec). repeat split.
    + exists a, b, r, tp, ln. eapply Hv; [exact Hp | easy | exact Hd].
    + intros [[] | [(c & ar & kw & H) | (c & c' & H)]]; apply Hc; right.
      * left. exists c, ar, kw. eapply Hs; [exact Hp' | easy | exact H].
      * right. exists c, c'. eapply Hs; [exact Hp' | easy | exact H].
    + intros (a' & b' & d & ds & r' & tp' & ln' & H). apply Hdec.
      exists a', b', d, ds, r', tp', ln'. eapply Hv; [exact Hp' | easy | exact H].
  - intros ([[[] | (ns & ln & a & H & Ha & Hb)] | [[] | (m & ns & ln & a & H & Ha & Hb)]] & Hu).
    + split.
      * left. right. exists ns, ln, a. split; [|easy].
        eapply Hs; [exact Hp | easy | exact H].
      * intros [[] | (c & H')]. apply Hu. right. exists c.
        eapply Hs; [exact Hp' | easy | exact H'].
    + split.
      * right. right. exists m, ns, ln, a. split; [|easy].
        eapply Hs; [exact Hp | easy | exact H].
      * intros [[] | (c & H')]. apply Hu. right. exists c.
        eapply Hs; [exact Hp' | easy | exact H'].
Qed.

Lemma reported_names_order_independent_witness :
  let body := [Other [Call (Name "used" Load) [] []];
               FunctionDef "used" (Other []) [Other []] [] None [] 2;
               FunctionDef "idle" (Other []) [Other []] [] None [] 3;
               Import [mk_alias "os" None] 4] in
  let body' := [Import [mk_alias "os" None] 4;
                FunctionDef "idle" (Other []) [Other []] [] None [] 3;
                FunctionDef "used" (Other []) [Other []] [] None [] 2;
                Other [Call (Name "used" Load) [] []]] in
  Permutation body body' /\
  (("idle" ∈ keys (reported_functions (visit (Module_ body) init)) ->
    "idle" ∈ keys (reported_functions (visit (Module_ body') init))) /\
   ("idle" ∈ keys (reported_imports (visit (Module_ body) init)) ->
    "idle" ∈ keys (reported_imports (visit (Module_ body') init)))).
Proof.
  cbn zeta.
  assert (H : Permutation
                [Other [Call (Name "used" Load) [] []];
                 FunctionDef "used" (Other []) [Other []] [] None [] 2;
                 FunctionDef "idle" (Other []) [Other []] [] None [] 3;
                 Import [mk_alias "os" None] 4]
                [Import [mk_alias "os" None] 4;
                 FunctionDef "idle" (Other []) [Other []] [] None [] 3;
                 FunctionDef "used" (Other []) [Other []] [] None [] 2;
                 Other [Call (Name "used" Load) [] []]]).
  { apply (Permutation_rev
             [Other [Call (Name "used" Load) [] []];
              FunctionDef "used" (Other []) [Other []] [] None [] 2;
              FunctionDef "idle" (Other []) [Other []] [] None [] 3;
              Import [mk_alias "os" None] 4]). }
  split; [exact H|]. exact (reported_names_order_independent _ _ "idle" H).
Defined.

(** ** Where an import record comes from *)

(** X24: every import record comes from an import statement of the tree
    that binds its key: it carries that statement's line, and as module the
    imported module's own name for a direct import, the statement's module
    (empty for a relative [from . import]) for a from-import, which never
    binds [*]. *)
Theorem import_record_origin (t : node) (k : string) (i : ImportInfo) :
  let v := visit t init in
  ((k, i) ∈ imports v ->
   exists names a,
     Import names (import_lineno i) ∈ subnodes t /\ a ∈ names /\
     bound_name a = k /\ module_of i = alias_name a /\ is_from i = false) /\
  ((k, i) ∈ import_froms v ->
   exists module names a,
     ImportFrom module names (import_lineno i) ∈ subnodes t /\ a ∈ names /\
     bound_name a = k /\ k <> "*" /\
     module_of i = module_or_empty module /\ is_from i = true).
Proof.
  cbn zeta. split; intros H.
  - rewrite imports_visit in H.
    apply dict_update_elem in H as [H | H]; [now apply elem_of_nil in H | | constructor].
    unfold direct_imports in H.
    apply list_elem_of_In, in_flat_map in H as (n & Hn & H).
    destruct n as [names l | | | | | | | ]; try now cbn in H.
    cbn in H. apply in_map_iff in H as (a & [= <- <-] & Ha). cbn.
    exists names, a. repeat split; now rewrite ?list_elem_of_In.
  - rewrite import_froms_visit in H.
    apply dict_update_elem in H as [H | H]; [now apply elem_of_nil in H | | constructor].
    unfold from_imports in H.
    apply list_elem_of_In, in_flat_map in H as (n & Hn & H).
    destruct n as [ | m names l | | | | | | ]; try now cbn in H.
    cbn in H. apply in_map_iff in H as (a & [= <- <-] & Ha).
    apply filter_In in Ha as [Ha Hstar]. apply negb_true_iff, String.eqb_neq in Hstar.
    cbn. exists m, names, a. repeat split; now rewrite ?list_elem_of_In.
Qed.
